(** * modulee: an in-process event bus with plugins

    A shallow embedding of [src/index.js] (the [compareVersion] helper and
    the default-exported bus class) together with the properties of its
    specification.

    Conventions of the embedding:
    - JavaScript strings are [string]s of ASCII characters;
    - a JavaScript number is a [Number]: [NaN], an infinity, or an integer
      that a double represents exactly (only integers arise in this code);
    - a method of the bus is a computation in the monad [M], which threads
      the state of the program and propagates a thrown value;
    - a promise is a computation in [M] that is run when the promise is
      settled; [Promise.resolve] and [then] adopt a promise they are
      given, through the class [Promises];
    - the plain object [this.plugins] is a [gmap] of its own properties,
      read through [plugins_get], which also sees the members every object
      inherits from [Object.prototype]. *)

From Stdlib Require Import ZArith NArith List Sorted Permutation Lia Bool Ascii String.
From stdpp Require Import gmap strings list fin_maps.

Local Open Scope string_scope.
Local Open Scope list_scope.

(* ===================================================================== *)
(** ** JavaScript numbers, as far as [compareVersion] uses them *)
(* ===================================================================== *)

Module JsNumber.

Inductive Number : Type :=
| NaN
| Fin (z : Z)
| Inf (negative : bool).

(** Round a natural number to the nearest double (ties to even): the
    integers below [2^53] are exact, larger ones keep 53 significant
    bits, and what rounds up to [2^1024] overflows. [None] is the
    overflow. *)
Definition round_to_double (n : N) : option N :=
  if (n <? 2 ^ 53)%N then Some n
  else
    let k := (N.log2 n - 52)%N in
    let q := (n / 2 ^ k)%N in
    let r := (n mod 2 ^ k)%N in
    let half := (2 ^ (k - 1))%N in
    let q' := if ((half <? r) || ((r =? half) && N.odd q))%N
              then (q + 1)%N else q in
    let v := (q' * 2 ^ k)%N in
    if (v <? 2 ^ 1024)%N then Some v else None.

Definition of_magnitude (negative : bool) (n : N) : Number :=
  match round_to_double n with
  | Some v => Fin (if negative then - Z.of_N v else Z.of_N v)
  | None => Inf negative
  end.

(** [a !== b] on numbers: [NaN] differs from everything, itself included. *)
Definition strict_neq (a b : Number) : bool :=
  match a, b with
  | Fin x, Fin y => negb (x =? y)%Z
  | Inf s, Inf t => negb (Bool.eqb s t)
  | _, _ => true
  end.

(** [a > b] on numbers: false as soon as one side is [NaN]. *)
Definition gt (a b : Number) : bool :=
  match a, b with
  | NaN, _ | _, NaN => false
  | Fin x, Fin y => (y <? x)%Z
  | Fin _, Inf t => t
  | Inf s, Fin _ => negb s
  | Inf s, Inf t => negb s && t
  end.

(** Mathematical equality, for the statements. *)
Definition eqb (a b : Number) : bool :=
  match a, b with
  | NaN, NaN => true
  | Fin x, Fin y => (x =? y)%Z
  | Inf s, Inf t => Bool.eqb s t
  | _, _ => false
  end.

Definition is_nan (a : Number) : bool :=
  match a with NaN => true | _ => false end.

End JsNumber.
Import JsNumber.

(* ===================================================================== *)
(** ** [String.prototype.split('.')] and [parseInt(token, 10)] *)
(* ===================================================================== *)

Definition is_dot (c : ascii) : bool := Ascii.eqb c ".".

(** [s.split('.')]: the pieces between the dots; the empty string splits
    into one empty piece. *)
Fixpoint split_dot (s : string) : list string :=
  match s with
  | EmptyString => [ "" ]
  | String c rest =>
      if is_dot c then "" :: split_dot rest
      else match split_dot rest with
           | t :: ts => String c t :: ts
           | [] => [ String c "" ]
           end
  end.

Definition is_white_space (c : ascii) : bool :=
  let n := nat_of_ascii c in
  ((9 <=? n) && (n <=? 13) || (n =? 32))%nat.

Definition digit_of (c : ascii) : option N :=
  let n := N_of_ascii c in
  if ((48 <=? n) && (n <=? 57))%N then Some (n - 48)%N else None.

Definition is_digit (c : ascii) : bool :=
  match digit_of c with Some _ => true | None => false end.

Fixpoint skip_white_space (s : string) : string :=
  match s with
  | String c rest => if is_white_space c then skip_white_space rest else s
  | EmptyString => s
  end.

(** The longest prefix of decimal digits, read most significant first:
    [Some value] when there is at least one digit. *)
Fixpoint read_digits (acc : option N) (s : string) : option N :=
  match s with
  | String c rest =>
      match digit_of c with
      | Some d =>
          read_digits (Some (10 * match acc with Some a => a | None => 0 end + d)%N)
                      rest
      | None => acc
      end
  | EmptyString => acc
  end.

(** [parseInt(token, 10)]: leading white space, an optional sign, then
    the longest run of digits; [NaN] when there is no digit. *)
Definition parseInt10 (token : string) : Number :=
  let s := skip_white_space token in
  let '(negative, body) :=
    match s with
    | String "-" rest => (true, rest)
    | String "+" rest => (false, rest)
    | _ => (false, s)
    end in
  match read_digits None body with
  | Some n => of_magnitude negative n
  | None => NaN
  end.

(* ===================================================================== *)
(** ** [compareVersion] *)
(* ===================================================================== *)

(** The [while (index < 3)] loop; [remaining] is [3 - index], so the
    recursion ends exactly when the loop condition fails. *)
Fixpoint compareVersion_loop (remaining index : nat)
    (tokensA tokensB : list Number) : Z :=
  match remaining with
  | O => 0
  | S remaining' =>
      let numberA :=
        if (index <? length tokensA)%nat then nth index tokensA NaN else Fin 0 in
      let numberB :=
        if (index <? length tokensB)%nat then nth index tokensB NaN else Fin 0 in
      if strict_neq numberA numberB
      then (if gt numberA numberB then 1 else -1)%Z
      else compareVersion_loop remaining' (S index) tokensA tokensB
  end.

Definition compareVersion (versionA versionB : string) : Z :=
  let tokensA := map parseInt10 (split_dot versionA) in
  let tokensB := map parseInt10 (split_dot versionB) in
  compareVersion_loop 3 0 tokensA tokensB.

(** A dotted-decimal version string: every piece between dots is a
    non-empty run of digits. *)
Definition all_digits (t : string) : bool :=
  forallb is_digit (list_ascii_of_string t).

Definition dotted_decimal (v : string) : bool :=
  forallb (fun t => negb (String.eqb t "") && all_digits t) (split_dot v).

(** The parsed segment at an index, a missing one counting as 0. *)
Definition segment (v : string) (i : nat) : Number :=
  nth i (map parseInt10 (split_dot v)) (Fin 0).

(* ===================================================================== *)
(** ** The values [===] and [!] are applied to in the bus *)
(* ===================================================================== *)

Inductive JsValue : Type :=
| JsBoolean (b : bool)
| JsString (s : string).

(** [ToBoolean]: a string is truthy unless it is empty. *)
Definition to_boolean (v : JsValue) : bool :=
  match v with
  | JsBoolean b => b
  | JsString s => negb (String.eqb s "")
  end.

(** [!v] is a boolean value. *)
Definition js_not (v : JsValue) : JsValue := JsBoolean (negb (to_boolean v)).

(** [a === b]: values of different types are never strictly equal. *)
Definition strict_equals (a b : JsValue) : bool :=
  match a, b with
  | JsBoolean x, JsBoolean y => Bool.eqb x y
  | JsString x, JsString y => String.eqb x y
  | _, _ => false
  end.

(** [Array.prototype.sort(cmp)]: a stable sort (ECMAScript 2019), here by
    insertion. An element stays in front of the ones it ties with. *)
Fixpoint sort_insert {A} (cmp : A -> A -> Z) (x : A) (l : list A) : list A :=
  match l with
  | [] => [x]
  | y :: l' => if (cmp x y <=? 0)%Z then x :: y :: l' else y :: sort_insert cmp x l'
  end.

Fixpoint js_sort {A} (cmp : A -> A -> Z) (l : list A) : list A :=
  match l with
  | [] => []
  | x :: l' => sort_insert cmp x (js_sort cmp l')
  end.

(** The members every plain object inherits from [Object.prototype]; a
    read such as [this.plugins[key]] finds them when [key] is not an own
    property. All of them are objects or functions, hence truthy, and
    none has a [version] property. *)
Definition object_prototype_members : list string :=
  [ "constructor"; "__proto__"; "hasOwnProperty"; "isPrototypeOf";
    "propertyIsEnumerable"; "toLocaleString"; "toString"; "valueOf";
    "__defineGetter__"; "__defineSetter__"; "__lookupGetter__";
    "__lookupSetter__" ].

Definition inherited (key : string) : bool :=
  existsb (String.eqb key) object_prototype_members.

(* ===================================================================== *)
(** ** The bus *)
(* ===================================================================== *)

Section Bus.

(** What listeners pass along, what plugins receive as options, and
    what user code may throw: any JavaScript value. *)
Context {Data : Type}.

(** The values [throw] is applied to. The three [new Error(...)] of
    [plugin] are named after the error kinds of the specification;
    [message] gives their text. [TypeError] is what reading a property
    of [undefined] throws; [Raised] is a value thrown by user code. *)
Inductive Thrown : Type :=
| DuplicatePlugin (name : string)
| MissingDependency (key name : string)
| UnmetVersion (key versionNeeded name versionProvided : string)
| TypeError
| Raised (value : Data).

Definition message (e : Thrown) : option string :=
  match e with
  | DuplicatePlugin name =>
      Some ("Plugin " +:+ name +:+ " is already installed!")
  | MissingDependency key name =>
      Some ("Plugin '" +:+ key +:+ "' is requred by '" +:+ name
            +:+ "', but not installed!")
  | UnmetVersion key versionNeeded name versionProvided =>
      Some ("Plugin '" +:+ key +:+ "' version " +:+ versionNeeded
            +:+ " is requred by '" +:+ name +:+ "', but only "
            +:+ versionProvided +:+ " is provided!")
  | TypeError | Raised _ => None
  end.

Inductive Outcome (A : Type) : Type :=
| Returned (a : A)
| Threw (e : Thrown).
Arguments Returned {A} a.
Arguments Threw {A} e.

(** A user function given to [on] or [once]: it maps the value it
    receives to a value, or throws. The value it returns may be a
    promise (see [Promises] below, which says what a value settles to).
    It does not call back into the bus: the properties below are about
    listeners that leave the registry alone. *)
Definition UserFunction : Type := Data -> Outcome Data.

(** The [cb] of a listener is either the function given to [on], or the
    arrow function [once] builds around its [cb]. That closure captures
    [removed] and [removeListener]; [removeListener] in turn captures
    the [$id] of the registration, and [cell] is that [$id], which also
    names the [removed] variable of this call of [once]. *)
Inductive Callback : Type :=
| Plain (f : UserFunction)
| OnceWrapper (cell : nat) (cb : UserFunction).

(** [{ mask, priority, cb, $id }] *)
Record Listener : Type := mkListener {
  mask : string;
  priority : Z;
  cb : Callback;
  id : nat
}.

(** [{ name, version, dependencies }]; the dependencies are listed in
    the order of [Object.keys]. *)
Record Descriptor : Type := mkDescriptor {
  name : string;
  version : string;
  dependencies : list (string * string)
}.

(** An invocation of a user function: who invoked it, on what, and how
    it ended. *)
Inductive Caller : Type :=
| ByListener (id : nat)
| ByOnce (cell : nat).

Record Call : Type := mkCall {
  caller : Caller;
  input : Data;
  output : Outcome Data
}.

(** The state of the program: the three fields of the bus ([next_id] is
    [this.$id]), the [removed] variables of the [once] closures (the
    set of cells that hold [true]), and [calls], a record of the user
    functions invoked so far, oldest first, which no code reads. *)
Record World : Type := mkWorld {
  listeners : list Listener;
  plugins : gmap string Descriptor;
  next_id : nat;
  removed : gset nat;
  calls : list Call
}.

(** [constructor()] *)
Definition new_bus : World :=
  {| listeners := []; plugins := ∅; next_id := 0; removed := ∅; calls := [] |}.

Definition set_listeners (ls : list Listener) (w : World) : World :=
  {| listeners := ls; plugins := plugins w; next_id := next_id w;
     removed := removed w; calls := calls w |}.

Definition set_plugins (ps : gmap string Descriptor) (w : World) : World :=
  {| listeners := listeners w; plugins := ps; next_id := next_id w;
     removed := removed w; calls := calls w |}.

Definition set_next_id (n : nat) (w : World) : World :=
  {| listeners := listeners w; plugins := plugins w; next_id := n;
     removed := removed w; calls := calls w |}.

Definition set_removed (r : gset nat) (w : World) : World :=
  {| listeners := listeners w; plugins := plugins w; next_id := next_id w;
     removed := r; calls := calls w |}.

Definition set_calls (cs : list Call) (w : World) : World :=
  {| listeners := listeners w; plugins := plugins w; next_id := next_id w;
     removed := removed w; calls := cs |}.

(** *** Computations: state passing, with [throw] *)

Definition M (A : Type) : Type := World -> World * Outcome A.

Definition ret {A} (a : A) : M A := fun w => (w, Returned a).

Definition throw {A} (e : Thrown) : M A := fun w => (w, Threw e).

Definition bind {A B} (c : M A) (k : A -> M B) : M B :=
  fun w =>
    match c w with
    | (w', Returned a) => k a w'
    | (w', Threw e) => (w', Threw e)
    end.

Definition gets {A} (f : World -> A) : M A := fun w => (w, Returned (f w)).

Definition modify (f : World -> World) : M unit := fun w => (f w, Returned tt).

End Bus.

Arguments Thrown : clear implicits.
Arguments Outcome : clear implicits.
Arguments UserFunction : clear implicits.
Arguments Callback : clear implicits.
Arguments Listener : clear implicits.
Arguments Call : clear implicits.
Arguments World : clear implicits.
Arguments M : clear implicits.
Arguments Returned {Data A} a.
Arguments Threw {Data A} e.

Notation "'let*' x ':=' c 'in' k" := (bind c (fun x => k))
  (at level 10, x pattern, c at level 100, k at level 200).

(** *** Promises

    A value may be a promise, and a listener may return one. What a
    promise settles to is not decided by the code of the bus: [await v]
    is the value [v] is fulfilled with or the reason it is rejected with,
    and [v] itself when [v] is not a promise (a promise that never
    settles is left out). A value a promise is fulfilled with is not a
    promise. When several of the promises given to [Promise.all] are
    rejected, the one rejected first in time wins: [first_rejection]
    picks it among the reasons, listed in the order of the promises,
    and so stands for the order of completion. *)
Class Promises (Data : Type) : Type := {
  await : Data -> Outcome Data Data;
  first_rejection : list (Thrown Data) -> Thrown Data;
  await_fulfilled : forall v x, await v = Returned x -> await x = Returned x;
  first_rejection_in :
    forall e es, In (first_rejection (e :: es)) (e :: es)
}.

(** No integer is a promise. *)
#[global] Instance integers_are_not_promises : Promises Z := {|
  await := fun v => Returned v;
  first_rejection := fun es => hd TypeError es;
  await_fulfilled := fun v x _ => eq_refl;
  first_rejection_in := fun e es => or_introl eq_refl
|}.

(** Numbers together with promises of numbers: [Fulfilling z] is
    fulfilled with [z], [Rejecting z] is rejected with [z], and of
    several rejections the last in the list comes first in time. *)
Inductive Sample : Type :=
| Num (z : Z)
| Fulfilling (z : Z)
| Rejecting (z : Z).

Definition sample_await (v : Sample) : Outcome Sample Sample :=
  match v with
  | Num z | Fulfilling z => Returned (Num z)
  | Rejecting z => Threw (Raised (Num z))
  end.

#[global] Instance sample_promises : Promises Sample := {|
  await := sample_await;
  first_rejection := fun es => List.last es TypeError;
  await_fulfilled :=
    ltac:(intros [z|z|z] x; simpl; intros [= <-]; reflexivity);
  first_rejection_in :=
    ltac:(intros e es; revert e; induction es as [|e' es IH]; intros e;
          [left; reflexivity | right; apply (IH e')])
|}.

Section Methods.

Context {Data : Type} `{!Promises Data}.

Local Abbreviation World := (World Data).
Local Abbreviation Listener := (Listener Data).
Local Abbreviation M := (M Data).

(** *** Array methods whose callback may throw or change the state *)

(** [array.reduce(f, init)] *)
Fixpoint js_reduce {A B} (f : B -> A -> M B) (array : list A) (init : B) : M B :=
  match array with
  | [] => ret init
  | x :: rest => let* result := f init x in js_reduce f rest result
  end.

(** [array.map(f)] *)
Fixpoint js_map {A B} (f : A -> M B) (array : list A) : M (list B) :=
  match array with
  | [] => ret []
  | x :: rest =>
      let* y := f x in
      let* ys := js_map f rest in
      ret (y :: ys)
  end.

(** [array.forEach(f)] *)
Fixpoint js_forEach {A} (f : A -> M unit) (array : list A) : M unit :=
  match array with
  | [] => ret tt
  | x :: rest => let* _ := f x in js_forEach f rest
  end.

(** *** Listeners *)

(** The function [on] returns: it filters the listeners by [$id] and
    returns how many it removed. *)
Definition dispose (id' : nat) : M Z :=
  fun w =>
    let oldLength := length (listeners w) in
    let w' := set_listeners
                (List.filter (fun l => negb (id l =? id')%nat) (listeners w)) w in
    (w', Returned (Z.of_nat oldLength - Z.of_nat (length (listeners w')))%Z).

(** [on (mask, cb, priority = 0)] *)
Definition on (mask : string) (cb : Callback Data) (priority : option Z)
  : M (M Z) :=
  fun w =>
    let id' := next_id w in
    let w1 := set_next_id (S id') w in
    let w2 := set_listeners
                (listeners w1 ++
                 [ {| mask := mask; priority := default 0%Z priority;
                      cb := cb; id := id' |} ]) w1 in
    (w2, Returned (dispose id')).

(** [once (mask, cb, priority)]: [let removed = false] makes the cell of
    this closure hold [false]; the listener registered next receives
    the [$id] the cell is named after. *)
Definition once (mask : string) (cb : UserFunction Data) (priority : option Z)
  : M (M Z) :=
  fun w =>
    let cell := next_id w in
    let w0 := set_removed (removed w ∖ {[ cell ]}) w in
    on mask (OnceWrapper cell cb) priority w0.

(** A user function is invoked, and the invocation recorded. *)
Definition call (who : Caller) (f : UserFunction Data) (d : Data) : M Data :=
  fun w =>
    (set_calls (calls w ++ [ {| caller := who; input := d; output := f d |} ]) w,
     f d).

(** [listener.cb(d)] *)
Definition invoke (listener : Listener) (d : Data) : M Data :=
  match cb listener with
  | Plain f => call (ByListener (id listener)) f d
  | OnceWrapper cell f =>
      let* removed' := gets (fun w => bool_decide (cell ∈ removed w)) in
      if negb removed' then
        let* result := call (ByOnce cell) f d in
        let* _ := dispose cell in
        let* _ := modify (fun w => set_removed ({[ cell ]} ∪ removed w) w) in
        ret result
      else ret d
  end.

(** [list (event, doSort = true)], under the name [list_] because [list]
    is the type of sequences. *)
Definition list_ (event : string) (doSort : option bool) (w : World)
  : list Listener :=
  if default true doSort
  then js_sort (fun a b => (priority b - priority a)%Z)
         (List.filter (fun l => strict_equals (JsString (mask l)) (JsString event))
                 (listeners w))
  else List.filter (fun l => strict_equals (JsString (mask l)) (JsString event))
              (listeners w).

(** *** Emission *)

(** A promise is the computation that settles it: what remains to be
    run, on the state of that later moment; its outcome is the value it
    is fulfilled with or the reason it is rejected with. *)
Definition Promise (A : Type) : Type := M A.

(** [Promise.resolve(value)]: the promise [value] when it is one, and
    otherwise a promise fulfilled with [value]; either way it settles
    as [await value] says. *)
Definition promise_resolve (value : Data) : Promise Data :=
  fun w => (w, await value).

(** [promise.then(f)]: once [promise] is fulfilled [f] is called on its
    value, and what [f] returns is resolved, a promise being waited for;
    a rejection of [promise] or a [throw] of [f] rejects the result. *)
Definition promise_then {A} (p : Promise A) (f : A -> M Data) : Promise Data :=
  let* x := p in
  let* value := f x in
  promise_resolve value.

(** [Promise.all(promises)]: every promise is waited for; when all are
    fulfilled the result is fulfilled with their values in the order of
    [promises], and otherwise it is rejected with the reason of the
    promise rejected first. *)
Fixpoint settle_each {A} (promises : list (Promise A))
  : World -> World * list (Outcome Data A) :=
  fun w =>
    match promises with
    | [] => (w, [])
    | p :: rest =>
        let '(w1, o) := p w in
        let '(w2, os) := settle_each rest w1 in
        (w2, o :: os)
    end.

Fixpoint fulfilments {A} (os : list (Outcome Data A)) : list A :=
  match os with
  | [] => []
  | Returned a :: rest => a :: fulfilments rest
  | Threw _ :: rest => fulfilments rest
  end.

Fixpoint rejections {A} (os : list (Outcome Data A)) : list (Thrown Data) :=
  match os with
  | [] => []
  | Returned _ :: rest => rejections rest
  | Threw e :: rest => e :: rejections rest
  end.

Definition promise_all {A} (promises : list (Promise A)) : Promise (list A) :=
  fun w =>
    let '(w', os) := settle_each promises w in
    match rejections os with
    | [] => (w', Returned (fulfilments os))
    | es => (w', Threw (first_rejection es))
    end.

(** [emit (event, data)] *)
Definition emit (event : string) (data : Data) : M (Promise Data) :=
  let* matching := gets (list_ event None) in
  ret (fold_left
         (fun result listener =>
            promise_then result
              (fun intermediateResult => invoke listener intermediateResult))
         matching (promise_resolve data)).

(** [emitSync (event, data)] *)
Definition emitSync (event : string) (data : Data) : M Data :=
  let* matching := gets (list_ event None) in
  js_reduce (fun result listener => invoke listener result) matching data.

(** [emitParallel (event, data)] *)
Definition emitParallel (event : string) (data : Data) : M (Promise (list Data)) :=
  let* matching := gets (list_ event None) in
  let* promises :=
    js_map (fun l => let* value := invoke l data in ret (promise_resolve value))
           matching in
  ret (promise_all promises).

(** [emitParallelSync (event, data)] *)
Definition emitParallelSync (event : string) (data : Data) : M (list Data) :=
  let* matching := gets (list_ event None) in
  js_map (fun l => invoke l data) matching.

(** [has (event)] *)
Definition has (event : string) : M bool :=
  let* matching := gets (list_ event (Some false)) in
  ret (0 <? length matching)%nat.

(** [off (event)]: the filter keeps a listener when [!l.mask === event],
    and [!] applies before [===]. The method returns the array it
    assigns. *)
Definition off (event : string) : M (list Listener) :=
  fun w =>
    let kept :=
      List.filter (fun l => strict_equals (js_not (JsString (mask l))) (JsString event))
             (listeners w) in
    (set_listeners kept w, Returned kept).

(** *** Plugins *)

(** A plugin: the function [pl], called as [pl(this, options)], and the
    descriptor [pl.plugin] attached to it. *)
Record Plugin : Type := mkPlugin {
  plugin_body : Data -> M unit;
  plugin_descriptor : Descriptor
}.

(** [createPlugin (name, version, dependencies, f)] *)
Definition createPlugin (name : string) (version : string)
    (dependencies : list (string * string)) (f : Data -> M unit) : Plugin :=
  {| plugin_body := f;
     plugin_descriptor :=
       {| name := name; version := version; dependencies := dependencies |} |}.

(** What [this.plugins[key]] evaluates to. *)
Inductive Slot : Type :=
| Own (d : Descriptor)
| Inherited
| Undefined.

Definition plugins_get (key : string) (w : World) : Slot :=
  match plugins w !! key with
  | Some d => Own d
  | None => if inherited key then Inherited else Undefined
  end.

Definition truthy (s : Slot) : bool :=
  match s with
  | Own _ | Inherited => true
  | Undefined => false
  end.

(** [Object.keys(dependencies)] and [dependencies[key]] *)
Definition object_keys (dependencies : list (string * string)) : list string :=
  map fst dependencies.

Fixpoint dependency (dependencies : list (string * string)) (key : string)
  : option string :=
  match dependencies with
  | [] => None
  | (k, v) :: rest => if String.eqb k key then Some v else dependency rest key
  end.

(** The body of the [forEach] over the dependencies. With an inherited
    member in place of a descriptor, [versionProvided] is [undefined]
    and [compareVersion] throws on [versionB.split]. *)
Definition check_dependency (pl : Plugin) (key : string) : M unit :=
  let* slot := gets (plugins_get key) in
  if negb (truthy slot) then
    throw (MissingDependency key (name (plugin_descriptor pl)))
  else
    match dependency (dependencies (plugin_descriptor pl)) key, slot with
    | Some versionNeeded, Own provided =>
        let versionProvided := version provided in
        if (compareVersion versionNeeded versionProvided >? 0)%Z then
          throw (UnmetVersion key versionNeeded (name (plugin_descriptor pl))
                              versionProvided)
        else ret tt
    | _, _ => throw TypeError
    end.

(** [plugin (pl, options)] *)
Definition plugin (pl : Plugin) (options : Data) : M unit :=
  let* installed := gets (plugins_get (name (plugin_descriptor pl))) in
  if truthy installed then
    throw (DuplicatePlugin (name (plugin_descriptor pl)))
  else
    let* _ := js_forEach (check_dependency pl)
                (object_keys (dependencies (plugin_descriptor pl))) in
    let* _ := plugin_body pl options in
    modify (fun w =>
              set_plugins (<[ name (plugin_descriptor pl) := plugin_descriptor pl ]>
                             (plugins w)) w).

End Methods.

Arguments Plugin : clear implicits.
Arguments Promise : clear implicits.

(* ===================================================================== *)
(** ** Notions the properties are stated with *)
(* ===================================================================== *)

(** The value of a run of decimal digits. *)
Definition decimal_value (t : string) : N :=
  fold_left (fun acc c => (10 * acc + (N_of_ascii c - 48))%N)
            (list_ascii_of_string t) 0%N.

Section Notions.

Context {Data : Type} `{!Promises Data}.

Local Abbreviation World := (World Data).
Local Abbreviation Listener := (Listener Data).
Local Abbreviation Plugin := (Plugin Data).

(** [chained ls data w w' result]: starting in [w] with [result_0 = data],
    each listener of [ls] in turn returns [result_i] when called on
    [result_(i-1)]; [result] is the last one and [w'] the state then. *)
Inductive chained : list Listener -> Data -> World -> World -> Data -> Prop :=
| chained_nil data w : chained [] data w w data
| chained_cons l ls data w w1 result1 w2 result :
    invoke l data w = (w1, Returned result1) ->
    chained ls result1 w1 w2 result ->
    chained (l :: ls) data w w2 result.

(** [delivered ls data w w' results]: each listener of [ls] in turn is
    called on the same [data] and returns the value at its position in
    [results]. *)
Inductive delivered : list Listener -> Data -> World -> World -> list Data -> Prop :=
| delivered_nil data w : delivered [] data w w []
| delivered_cons l ls data w w1 result1 w2 results :
    invoke l data w = (w1, Returned result1) ->
    delivered ls data w1 w2 results ->
    delivered (l :: ls) data w w2 (result1 :: results).

(** A listener whose callback is the total function [f]. *)
Definition computes (l : Listener) (f : Data -> Data) : Prop :=
  cb l = Plain (fun d => Returned (f d)).

(** The value a promise settles to when what remains of it runs in [w]. *)
Definition settles_to {A} (p : Promise Data A) (a : A) : Prop :=
  forall w : World, p w = (w, Returned a).

(** The reason a promise is rejected with. *)
Definition rejected_with {A} (p : Promise Data A) (err : Thrown Data) : Prop :=
  forall w : World, p w = (w, Threw err).

(** A promise resolved with [v]: it settles as [v] does when [v] is a
    promise, and is fulfilled with [v] otherwise. *)
Definition resolves_with (p : Promise Data Data) (v : Data) : Prop :=
  forall w : World, p w = (w, await v).

(** [p] gathers what the listeners returned, [results], in their order:
    when every result is a value or a promise that is fulfilled, [p] is
    fulfilled with the values, each at the position of its result; when
    some result is a promise that is rejected, [p] is rejected with the
    reason of one of them. *)
Definition gathers (p : Promise Data (list Data)) (results : list Data) : Prop :=
  (forall values,
     Forall2 (fun r v => await r = Returned v) results values ->
     settles_to p values)
  /\ ((exists r err, In r results /\ await r = Threw err) ->
      exists r err, In r results /\ await r = Threw err /\ rejected_with p err).

(** Invocations of the function given to the [once] of a cell: all of
    them, and those that returned. *)
Definition by_once (cell : nat) (c : Call Data) : bool :=
  match caller c with
  | ByOnce cell' => (cell' =? cell)%nat
  | ByListener _ => false
  end.

Definition has_returned (c : Call Data) : bool :=
  match output c with
  | Returned _ => true
  | Threw _ => false
  end.

Definition executions (cell : nat) (cs : list (Call Data)) : nat :=
  length (List.filter (by_once cell) cs).

Definition completions (cell : nat) (cs : list (Call Data)) : nat :=
  length (List.filter (fun c => by_once cell c && has_returned c) cs).

(** A client emitting events one after the other; a promise it receives
    is settled before the next emission, and a failure is caught. *)
Inductive Emission : Type :=
| Emit (event : string) (data : Data)
| EmitSync (event : string) (data : Data)
| EmitParallel (event : string) (data : Data)
| EmitParallelSync (event : string) (data : Data).

Definition run_emission (m : Emission) (w : World) : World :=
  match m with
  | Emit e d =>
      match emit e d w with
      | (w', Returned p) => fst (p w')
      | (w', Threw _) => w'
      end
  | EmitSync e d => fst (emitSync e d w)
  | EmitParallel e d =>
      match emitParallel e d w with
      | (w', Returned p) => fst (p w')
      | (w', Threw _) => w'
      end
  | EmitParallelSync e d => fst (emitParallelSync e d w)
  end.

Definition run_emissions (ms : list Emission) (w : World) : World :=
  fold_left (fun w' m => run_emission m w') ms w.

(** A call that ended with a [throw]. *)
Definition fails {A} (r : World * Outcome Data A) : Prop :=
  exists e, snd r = Threw e.

(** The conditions under which the specification lets [plugin] fail. *)
Definition duplicate (pl : Plugin) (w : World) : Prop :=
  is_Some (plugins w !! name (plugin_descriptor pl)).

Definition missing (key : string) (w : World) : Prop :=
  plugins w !! key = None.

Definition unmet (pl : Plugin) (key : string) (w : World) : Prop :=
  exists provided versionNeeded,
    plugins w !! key = Some provided
    /\ dependency (dependencies (plugin_descriptor pl)) key = Some versionNeeded
    /\ (compareVersion versionNeeded (version provided) > 0)%Z.

Definition satisfied (pl : Plugin) (w : World) (key : string) : Prop :=
  exists provided versionNeeded,
    plugins w !! key = Some provided
    /\ dependency (dependencies (plugin_descriptor pl)) key = Some versionNeeded
    /\ (compareVersion versionNeeded (version provided) <= 0)%Z.

Definition validation_fails (pl : Plugin) (w : World) : Prop :=
  duplicate pl w
  \/ exists key, In key (object_keys (dependencies (plugin_descriptor pl)))
                 /\ (missing key w \/ unmet pl key w).

(** Every check of [plugin] has let the call go on. *)
Definition checks_passed (pl : Plugin) (w : World) : Prop :=
  truthy (plugins_get (name (plugin_descriptor pl)) w) = false
  /\ Forall (satisfied pl w) (object_keys (dependencies (plugin_descriptor pl))).

(** The same descriptor on another function. *)
Definition with_body (pl : Plugin) (f : Data -> M Data unit) : Plugin :=
  {| plugin_body := f; plugin_descriptor := plugin_descriptor pl |}.

(** The state after [this.plugins[pl.plugin.name] = pl.plugin]. *)
Definition recorded (pl : Plugin) (w : World) : World :=
  set_plugins (<[ name (plugin_descriptor pl) := plugin_descriptor pl ]> (plugins w)) w.

End Notions.

(** [pieces.join('.')], the inverse of [split('.')]. *)
Fixpoint join_dot (pieces : list string) : string :=
  match pieces with
  | [] => ""
  | [t] => t
  | t :: rest => t +:+ "." +:+ join_dot rest
  end.

(** The segments [compareVersion] looks at are numbers. *)
Definition numeric3 (v : string) : Prop :=
  forall i, (i < 3)%nat -> is_nan (segment v i) = false.

(** Where a number that is not [NaN] stands in the order of [>]: the
    infinities on either side of the integers. *)
Definition order_key (x : Number) : Z * Z :=
  match x with
  | NaN => (0, 0)%Z
  | Fin z => (0, z)%Z
  | Inf true => (-1, 0)%Z
  | Inf false => (1, 0)%Z
  end.

Definition key_lt (p q : Z * Z) : Prop :=
  (fst p < fst q)%Z \/ (fst p = fst q /\ (snd p < snd q)%Z).

Definition key_eq (p q : Z * Z) : Prop :=
  fst p = fst q /\ snd p = snd q.

(** The lexicographic order of the segments at indices 0, 1, 2. *)
Definition version_le (a b : string) : Prop :=
  let k v i := order_key (segment v i) in
  key_lt (k a 0) (k b 0)
  \/ (key_eq (k a 0) (k b 0)
      /\ (key_lt (k a 1) (k b 1)
          \/ (key_eq (k a 1) (k b 1)
              /\ (key_lt (k a 2) (k b 2) \/ key_eq (k a 2) (k b 2))))).

Section Invariants.

Context {Data : Type}.

(** The [$id]s of the registered listeners differ from one another and
    lie below the counter. *)
Definition well_formed (w : World Data) : Prop :=
  List.NoDup (map id (listeners w))
  /\ List.Forall (fun l => (id l < next_id w)%nat) (listeners w).

(** Every wrapper of [once] is registered under the [$id] its closure
    captured, as [once] registers it. *)
Definition wrappers_own (w : World Data) : Prop :=
  List.Forall (fun l => match cb l with
                        | OnceWrapper cell _ => cell = id l
                        | Plain _ => True
                        end) (listeners w).

End Invariants.

(* ===================================================================== *)
(** ** Properties of [compareVersion] *)
(* ===================================================================== *)

Section VersionFacts.

Lemma digit_of_value c d : digit_of c = Some d -> d = (N_of_ascii c - 48)%N.
Proof.
  unfold digit_of. destruct (_ && _)%bool; congruence.
Qed.

Lemma read_digits_acc acc s :
  read_digits (Some acc) s <> None.
Proof.
  revert acc. induction s as [|c s IH]; intros acc; simpl; [congruence|].
  destruct (digit_of c); [apply IH | congruence].
Qed.

Lemma read_digits_all_digits acc l :
  forallb is_digit l = true ->
  read_digits (Some acc) (string_of_list_ascii l)
  = Some (fold_left (fun a c => (10 * a + (N_of_ascii c - 48))%N) l acc).
Proof.
  revert acc. induction l as [|c l IH]; intros acc H; simpl in *; [reflexivity|].
  apply andb_true_iff in H as [Hc Hl]. unfold is_digit in Hc.
  destruct (digit_of c) as [d|] eqn:E; [|discriminate].
  apply digit_of_value in E. subst d. apply IH, Hl.
Qed.

Lemma digit_not_white c : is_digit c = true -> is_white_space c = false.
Proof.
  unfold is_digit, digit_of, is_white_space.
  destruct c as [[] [] [] [] [] [] [] []]; vm_compute; congruence.
Qed.

Lemma digit_not_sign c :
  is_digit c = true -> c <> "-"%char /\ c <> "+"%char.
Proof.
  intros H; split; intros ->; vm_compute in H; discriminate.
Qed.

(** On a non-empty run of digits [parseInt] yields the decimal value,
    rounded to a double. *)
Lemma parseInt10_digits t :
  t <> "" -> all_digits t = true ->
  parseInt10 t = of_magnitude false (decimal_value t).
Proof.
  intros Hne Hd. unfold all_digits in Hd. unfold parseInt10, decimal_value.
  destruct t as [|c t]; [congruence|]. simpl in Hd.
  apply andb_true_iff in Hd as [Hc Hl].
  simpl skip_white_space. rewrite (digit_not_white _ Hc).
  destruct (digit_not_sign _ Hc) as [Hm Hp].
  assert (Hbody : (let '(negative, body) :=
                     match String c t with
                     | String "-" rest => (true, rest)
                     | String "+" rest => (false, rest)
                     | _ => (false, String c t)
                     end in
                   match read_digits None body with
                   | Some n => of_magnitude negative n
                   | None => NaN
                   end)
                  = match read_digits None (String c t) with
                    | Some n => of_magnitude false n
                    | None => NaN
                    end).
  { destruct c as [[] [] [] [] [] [] [] []]; try reflexivity; congruence. }
  rewrite Hbody. clear Hbody. simpl read_digits.
  unfold is_digit in Hc. destruct (digit_of c) as [d|] eqn:E; [|discriminate].
  apply digit_of_value in E. subst d.
  rewrite <- (string_of_list_ascii_of_string t) at 1.
  rewrite (read_digits_all_digits _ _ Hl). simpl. reflexivity.
Qed.

Lemma of_magnitude_not_nan s n : is_nan (of_magnitude s n) = false.
Proof. unfold of_magnitude. destruct (round_to_double n); reflexivity. Qed.

Lemma dotted_decimal_token v t :
  dotted_decimal v = true -> In t (split_dot v) ->
  t <> "" /\ all_digits t = true.
Proof.
  unfold dotted_decimal. rewrite forallb_forall. intros H Hin.
  specialize (H _ Hin). apply andb_true_iff in H as [H1 H2]. split; [|exact H2].
  intros ->. discriminate.
Qed.

Lemma segment_token v i t :
  dotted_decimal v = true -> nth_error (split_dot v) i = Some t ->
  segment v i = of_magnitude false (decimal_value t).
Proof.
  intros Hd Hn. unfold segment.
  assert (Hin : In t (split_dot v)) by (eapply nth_error_In; eauto).
  destruct (dotted_decimal_token _ _ Hd Hin) as [Hne Hall].
  rewrite <- (parseInt10_digits _ Hne Hall).
  apply nth_error_nth. rewrite nth_error_map, Hn. reflexivity.
Qed.

Lemma segment_not_nan v i :
  dotted_decimal v = true -> is_nan (segment v i) = false.
Proof.
  intros Hd. destruct (nth_error (split_dot v) i) as [t|] eqn:E.
  - rewrite (segment_token _ _ _ Hd E). apply of_magnitude_not_nan.
  - unfold segment. rewrite nth_overflow; [reflexivity|].
    rewrite length_map. apply nth_error_None, E.
Qed.

(** What the loop reads at an index is the segment. *)
Lemma loop_reads_segment v index :
  (if (index <? length (map parseInt10 (split_dot v)))%nat
   then nth index (map parseInt10 (split_dot v)) NaN else Fin 0)
  = segment v index.
Proof.
  unfold segment. destruct (Nat.ltb_spec index (length (map parseInt10 (split_dot v)))).
  - apply nth_indep. assumption.
  - rewrite nth_overflow; [reflexivity | assumption].
Qed.

Lemma strict_neq_eq x y :
  is_nan x = false -> is_nan y = false ->
  strict_neq x y = false <-> x = y.
Proof.
  destruct x as [|x|[]], y as [|y|[]]; simpl; intros; try discriminate;
    split; intros H'; try discriminate; try reflexivity.
  - apply negb_false_iff, Z.eqb_eq in H'. congruence.
  - injection H' as ->. apply negb_false_iff, Z.eqb_refl.
Qed.

Lemma gt_total x y :
  is_nan x = false -> is_nan y = false -> x <> y ->
  gt x y = false -> gt y x = true.
Proof.
  destruct x as [|x|[]], y as [|y|[]]; simpl; intros ? ? Hne H';
    try discriminate; try reflexivity; try congruence.
  apply Z.ltb_ge in H'. apply Z.ltb_lt.
  assert (x <> y) by congruence. lia.
Qed.

Lemma compareVersion_unfold a b :
  compareVersion a b =
  (if strict_neq (segment a 0) (segment b 0)
   then (if gt (segment a 0) (segment b 0) then 1 else -1)
   else if strict_neq (segment a 1) (segment b 1)
   then (if gt (segment a 1) (segment b 1) then 1 else -1)
   else if strict_neq (segment a 2) (segment b 2)
   then (if gt (segment a 2) (segment b 2) then 1 else -1)
   else 0)%Z.
Proof.
  unfold compareVersion. cbv zeta. cbn [compareVersion_loop].
  rewrite !loop_reads_segment. reflexivity.
Qed.

End VersionFacts.

(** C8. For dotted-decimal version strings [a] and [b], every segment is
    the decimal value of its digits (as a double) and a missing segment
    is 0; [compareVersion a b] is 0 when the segments at indices 0, 1, 2
    agree, and otherwise, at the first of these indices where they
    differ, it is 1 when the segment of [a] is the greater and -1 when
    the segment of [b] is; no other segment matters. The three sample
    comparisons give 0, 1 and -1. *)
Theorem compareVersion_compares_three_segments (a b : string) :
  dotted_decimal a = true -> dotted_decimal b = true ->
  (forall v i t, dotted_decimal v = true ->
     nth_error (split_dot v) i = Some t ->
     segment v i = of_magnitude false (decimal_value t))
  /\ (forall v i, nth_error (split_dot v) i = None -> segment v i = Fin 0)
  /\ ((forall i, (i < 3)%nat -> segment a i = segment b i) ->
      compareVersion a b = 0%Z)
  /\ (forall i, (i < 3)%nat ->
        (forall j, (j < i)%nat -> segment a j = segment b j) ->
        segment a i <> segment b i ->
        (gt (segment a i) (segment b i) = true /\ compareVersion a b = 1%Z)
        \/ (gt (segment b i) (segment a i) = true /\ compareVersion a b = (-1)%Z))
  /\ compareVersion "1.2.0" "1.2" = 0%Z
  /\ compareVersion "2.0.0" "1.9.9" = 1%Z
  /\ compareVersion "1.0" "1.0.1" = (-1)%Z.
Proof.
  intros Ha Hb.
  assert (Hnn : forall i, is_nan (segment a i) = false /\ is_nan (segment b i) = false)
    by (intros i; split; apply segment_not_nan; assumption).
  assert (Heq : forall i, segment a i = segment b i ->
                          strict_neq (segment a i) (segment b i) = false).
  { intros i E. destruct (Hnn i). apply strict_neq_eq; assumption. }
  assert (Hne : forall i, segment a i <> segment b i ->
                          strict_neq (segment a i) (segment b i) = true).
  { intros i E. destruct (Hnn i) as [Hx Hy].
    destruct (strict_neq (segment a i) (segment b i)) eqn:S; [reflexivity|].
    apply strict_neq_eq in S; [contradiction | assumption | assumption]. }
  split; [intros v i t Hv Ht; apply segment_token; assumption|].
  split.
  { intros v i Hn. unfold segment. apply nth_overflow.
    rewrite length_map. apply nth_error_None, Hn. }
  split.
  { intros Hall. rewrite compareVersion_unfold.
    rewrite !Heq by (apply Hall; lia). reflexivity. }
  split; [|repeat split; reflexivity].
  intros i Hi Hprev Hdiff. destruct (Hnn i) as [Hx Hy].
  assert (Hres : compareVersion a b
                 = (if gt (segment a i) (segment b i) then 1 else -1)%Z).
  { rewrite compareVersion_unfold.
    destruct i as [|[|[|i]]]; [| | |lia].
    - rewrite (Hne 0%nat Hdiff). reflexivity.
    - rewrite (Heq 0%nat) by (apply Hprev; lia).
      rewrite (Hne 1%nat Hdiff). reflexivity.
    - rewrite (Heq 0%nat) by (apply Hprev; lia).
      rewrite (Heq 1%nat) by (apply Hprev; lia).
      rewrite (Hne 2%nat Hdiff). reflexivity. }
  rewrite Hres. destruct (gt (segment a i) (segment b i)) eqn:G.
  - left. split; reflexivity.
  - right. split; [|reflexivity]. apply gt_total; assumption.
Qed.

Lemma compareVersion_compares_three_segments_witness :
  dotted_decimal "1.10.0" = true /\ dotted_decimal "1.9.9" = true
  /\ segment "1.10.0" 0 = segment "1.9.9" 0
  /\ segment "1.10.0" 1 <> segment "1.9.9" 1
  /\ ((gt (segment "1.10.0" 1) (segment "1.9.9" 1) = true
       /\ compareVersion "1.10.0" "1.9.9" = 1%Z)
      \/ (gt (segment "1.9.9" 1) (segment "1.10.0" 1) = true
          /\ compareVersion "1.10.0" "1.9.9" = (-1)%Z)).
Proof.
  split; [reflexivity|]. split; [reflexivity|]. split; [reflexivity|].
  assert (Hne : segment "1.10.0" 1 <> segment "1.9.9" 1)
    by (vm_compute; discriminate).
  split; [exact Hne|].
  destruct (compareVersion_compares_three_segments "1.10.0" "1.9.9"
              eq_refl eq_refl) as (_ & _ & _ & Hfirst & _).
  apply (Hfirst 1); [lia | | exact Hne].
  intros j Hj. assert (j = 0) as -> by lia. reflexivity.
Defined.

(* ===================================================================== *)
(** ** Properties of the stable sort *)
(* ===================================================================== *)

Section SortFacts.

Context {A : Type} (key : A -> Z).

(** The comparator of [list] is [(a, b) => b.priority - a.priority]. *)
Local Abbreviation cmp := (fun a b : A => (key b - key a)%Z).

Lemma sort_insert_perm x l : Permutation (sort_insert cmp x l) (x :: l).
Proof.
  induction l as [|y l IH]; simpl; [reflexivity|].
  destruct (cmp x y <=? 0)%Z; [reflexivity|].
  rewrite IH. apply perm_swap.
Qed.

Lemma js_sort_perm l : Permutation (js_sort cmp l) l.
Proof.
  induction l as [|x l IH]; simpl; [reflexivity|].
  rewrite sort_insert_perm. constructor. exact IH.
Qed.

Lemma sort_insert_sorted x l :
  StronglySorted (fun a b => (key b <= key a)%Z) l ->
  StronglySorted (fun a b => (key b <= key a)%Z) (sort_insert cmp x l).
Proof.
  induction 1 as [|y l Hs IH Hy]; simpl.
  - repeat constructor.
  - destruct (Z.leb_spec (key y - key x) 0).
    + constructor; [constructor; assumption|].
      constructor; [lia|].
      rewrite Forall_forall in Hy |- *. intros z Hz.
      specialize (Hy z Hz). simpl in Hy. lia.
    + constructor; [exact IH|].
      apply (Permutation_Forall (Permutation_sym (sort_insert_perm x l))).
      constructor; [lia | exact Hy].
Qed.

Lemma js_sort_sorted l :
  StronglySorted (fun a b => (key b <= key a)%Z) (js_sort cmp l).
Proof.
  induction l as [|x l IH]; simpl; [constructor|].
  apply sort_insert_sorted, IH.
Qed.

(** Among the elements of one key the order is the original one. *)
Lemma sort_insert_stable p x l :
  List.filter (fun a => (key a =? p)%Z) (sort_insert cmp x l)
  = List.filter (fun a => (key a =? p)%Z) (x :: l).
Proof.
  induction l as [|y l IH]; [reflexivity|].
  simpl sort_insert.
  destruct (Z.leb_spec (key y - key x) 0); [reflexivity|].
  change (List.filter (fun a => (key a =? p)%Z) (y :: sort_insert cmp x l))
    with (if (key y =? p)%Z
          then y :: List.filter (fun a => (key a =? p)%Z) (sort_insert cmp x l)
          else List.filter (fun a => (key a =? p)%Z) (sort_insert cmp x l)).
  rewrite IH. simpl.
  destruct (Z.eqb_spec (key x) p), (Z.eqb_spec (key y) p); try reflexivity.
  lia.
Qed.

Lemma js_sort_stable p l :
  List.filter (fun a => (key a =? p)%Z) (js_sort cmp l)
  = List.filter (fun a => (key a =? p)%Z) l.
Proof.
  induction l as [|x l IH]; [reflexivity|].
  simpl js_sort. rewrite sort_insert_stable. simpl. rewrite IH. reflexivity.
Qed.

End SortFacts.

(* ===================================================================== *)
(** ** Properties of the listeners and of emission *)
(* ===================================================================== *)

Section ListenerFacts.

Context {Data : Type}.

Local Abbreviation World := (World Data).
Local Abbreviation Listener := (Listener Data).

Implicit Types (w : World) (l : Listener) (ls : list Listener) (d : Data).

Lemma mask_filter_eq e ls :
  List.filter (fun l => strict_equals (JsString (mask l)) (JsString e)) ls
  = List.filter (fun l => String.eqb (mask l) e) ls.
Proof. reflexivity. Qed.

Lemma list_default e w : list_ e None w = list_ e (Some true) w.
Proof. reflexivity. Qed.

Lemma list_unsorted e w :
  list_ e (Some false) w = List.filter (fun l => String.eqb (mask l) e) (listeners w).
Proof. reflexivity. Qed.

Lemma list_sorted e w :
  list_ e (Some true) w
  = js_sort (fun a b => (priority b - priority a)%Z)
      (List.filter (fun l => String.eqb (mask l) e) (listeners w)).
Proof. reflexivity. Qed.

End ListenerFacts.

(** C7. [list(e, true)] holds exactly the listeners whose mask equals
    [e] (each as often as it is registered), in descending order of
    priority, and the listeners of one priority appear in the order of
    their registration. *)
Theorem list_descending_priority_stable {Data : Type}
    (w : World Data) (e : string) :
  let matching := List.filter (fun l => String.eqb (mask l) e) (listeners w) in
  let result := list_ e (Some true) w in
  list_ e None w = result
  /\ list_ e (Some false) w = matching
  /\ (forall l, In l result <-> In l (listeners w) /\ mask l = e)
  /\ Permutation result matching
  /\ StronglySorted (fun a b => (priority b <= priority a)%Z) result
  /\ (forall p, List.filter (fun l => (priority l =? p)%Z) result
                = List.filter (fun l => (priority l =? p)%Z) matching).
Proof.
  intros matching result. subst matching result. rewrite list_sorted.
  split; [reflexivity|]. split; [reflexivity|].
  split.
  { intros l. rewrite (Permutation_in' (eq_refl l) (js_sort_perm priority _)).
    rewrite filter_In, String.eqb_eq. reflexivity. }
  split; [apply js_sort_perm|].
  split; [apply js_sort_sorted | intros p; apply js_sort_stable].
Qed.

Section EmissionFacts.

Context {Data : Type}.

Local Abbreviation World := (World Data).
Local Abbreviation Listener := (Listener Data).

Implicit Types (w : World) (l : Listener) (ls : list Listener) (d : Data).

Lemma emitSync_unfold e d w :
  emitSync e d w
  = js_reduce (fun result listener => invoke listener result)
      (list_ e (Some true) w) d w.
Proof. reflexivity. Qed.

Lemma emitParallelSync_unfold e d w :
  emitParallelSync e d w
  = js_map (fun l => invoke l d) (list_ e (Some true) w) w.
Proof. reflexivity. Qed.

Lemma js_reduce_cons (f : Data -> Listener -> M Data Data) l ls d w :
  js_reduce f (l :: ls) d w
  = match f d l w with
    | (w1, Returned r1) => js_reduce f ls r1 w1
    | (w1, Threw err) => (w1, Threw err)
    end.
Proof. reflexivity. Qed.

Lemma js_map_cons {B} (f : Listener -> M Data B) l ls w :
  js_map f (l :: ls) w
  = match f l w with
    | (w1, Returned y) =>
        match js_map f ls w1 with
        | (w2, Returned ys) => (w2, Returned (y :: ys))
        | (w2, Threw err) => (w2, Threw err)
        end
    | (w1, Threw err) => (w1, Threw err)
    end.
Proof.
  simpl. unfold bind. destruct (f l w) as [w1 [y|err]]; [|reflexivity].
  destruct (js_map f ls w1) as [w2 [ys|err]]; reflexivity.
Qed.

Lemma reduce_returns_iff_chained ls d w w' result :
  js_reduce (fun r l => invoke l r) ls d w = (w', Returned result)
  <-> chained ls d w w' result.
Proof.
  revert d w. induction ls as [|l ls IH]; intros d w.
  - simpl. unfold ret. split.
    + intros [= <- <-]. constructor.
    + inversion 1; subst. reflexivity.
  - rewrite js_reduce_cons. split.
    + destruct (invoke l d w) as [w1 [r1|err]] eqn:E; [|discriminate].
      intros H. econstructor; [exact E | apply IH, H].
    + inversion 1 as [|? ? ? ? ? ? ? ? Hi Hc]; subst.
      rewrite Hi. apply IH. exact Hc.
Qed.

Lemma reduce_throws_iff ls d w w' err :
  js_reduce (fun r l => invoke l r) ls d w = (w', Threw err)
  <-> exists pre l post w0 r0,
        ls = pre ++ l :: post /\ chained pre d w w0 r0
        /\ invoke l r0 w0 = (w', Threw err).
Proof.
  revert d w. induction ls as [|l ls IH]; intros d w.
  - simpl. unfold ret. split; [discriminate|].
    intros (pre & l & post & _ & _ & E & _). destruct pre; discriminate.
  - rewrite js_reduce_cons. split.
    + destruct (invoke l d w) as [w1 [r1|err1]] eqn:E.
      * intros H. apply IH in H as (pre & l' & post & w0 & r0 & -> & Hc & Hi).
        exists (l :: pre), l', post, w0, r0. split; [reflexivity|].
        split; [econstructor; eassumption | exact Hi].
      * intros [= <- <-]. exists [], l, ls, w, d.
        split; [reflexivity|]. split; [constructor | exact E].
    + intros (pre & l' & post & w0 & r0 & Heq & Hc & Hi).
      destruct pre as [|x pre]; simpl in Heq; injection Heq as <- ->.
      * inversion Hc; subst. rewrite Hi. reflexivity.
      * inversion Hc as [|? ? ? ? ? ? ? ? Hx Hc']; subst. rewrite Hx. apply IH.
        exists pre, l', post, w0, r0. auto.
Qed.

Lemma map_returns_iff_delivered ls d w w' results :
  js_map (fun l => invoke l d) ls w = (w', Returned results)
  <-> delivered ls d w w' results.
Proof.
  revert w results. induction ls as [|l ls IH]; intros w results.
  - simpl. unfold ret. split.
    + intros [= <- <-]. constructor.
    + inversion 1; subst. reflexivity.
  - rewrite js_map_cons. split.
    + destruct (invoke l d w) as [w1 [r1|err]] eqn:E; [|discriminate].
      destruct (js_map _ ls w1) as [w2 [rs|err]] eqn:E2; [|discriminate].
      intros [= <- <-]. econstructor; [exact E | apply IH, E2].
    + inversion 1 as [|? ? ? ? ? ? ? ? Hi Hd]; subst. rewrite Hi.
      apply IH in Hd. rewrite Hd. reflexivity.
Qed.

(** A total function as callback changes nothing but the record of calls. *)
Lemma invoke_computes l f d w :
  computes l f ->
  invoke l d w
  = (set_calls (calls w ++ [ {| caller := ByListener (id l); input := d;
                                output := Returned (f d) |} ]) w,
     Returned (f d)).
Proof. unfold computes, invoke. intros ->. reflexivity. Qed.

Lemma reduce_computes ls fs d w :
  Forall2 computes ls fs ->
  exists w',
    js_reduce (fun r l => invoke l r) ls d w
    = (w', Returned (fold_left (fun r f => f r) fs d))
    /\ listeners w' = listeners w /\ plugins w' = plugins w
    /\ next_id w' = next_id w /\ removed w' = removed w.
Proof.
  intros H. revert d w. induction H as [|l f ls fs Hl _ IH]; intros d w.
  - exists w. repeat split.
  - rewrite js_reduce_cons, (invoke_computes _ _ _ _ Hl).
    destruct (IH (f d) (set_calls (calls w ++ [ {| caller := ByListener (id l);
                 input := d; output := Returned (f d) |} ]) w))
      as (w' & -> & ? & ? & ? & ?).
    exists w'. repeat split; assumption.
Qed.

Lemma map_computes ls fs d w :
  Forall2 computes ls fs ->
  exists w',
    js_map (fun l => invoke l d) ls w = (w', Returned (map (fun f => f d) fs))
    /\ listeners w' = listeners w /\ plugins w' = plugins w
    /\ next_id w' = next_id w /\ removed w' = removed w.
Proof.
  intros H. revert w. induction H as [|l f ls fs Hl _ IH]; intros w.
  - exists w. repeat split.
  - rewrite js_map_cons, (invoke_computes _ _ _ _ Hl).
    destruct (IH (set_calls (calls w ++ [ {| caller := ByListener (id l);
                 input := d; output := Returned (f d) |} ]) w))
      as (w' & -> & ? & ? & ? & ?).
    exists w'. repeat split; assumption.
Qed.

(** Registering two listeners on an event nobody listens to yet. *)
Lemma list_after_two_on e cb1 p1 cb2 p2 w :
  list_ e (Some false) w = [] ->
  list_ e (Some true) (fst (on e cb2 (Some p2) (fst (on e cb1 (Some p1) w))))
  = js_sort (fun a b => (priority b - priority a)%Z)
      [ {| mask := e; priority := p1; cb := cb1; id := next_id w |};
        {| mask := e; priority := p2; cb := cb2; id := S (next_id w) |} ].
Proof.
  rewrite list_unsorted, list_sorted. intros H. simpl.
  rewrite !List.filter_app, H. simpl.
  rewrite String.eqb_refl. reflexivity.
Qed.

Lemma no_listener_filter e w :
  (forall l, In l (listeners w) -> mask l <> e) ->
  List.filter (fun l => String.eqb (mask l) e) (listeners w) = [].
Proof.
  intros H. induction (listeners w) as [|l ls IH]; [reflexivity|]. simpl.
  destruct (String.eqb_spec (mask l) e) as [E|_].
  - exfalso. apply (H l); [left; reflexivity | exact E].
  - apply IH. intros l' Hin. apply H. right. exact Hin.
Qed.

Lemma no_listener_list e w :
  (forall l, In l (listeners w) -> mask l <> e) ->
  list_ e (Some true) w = [].
Proof.
  intros H. rewrite list_sorted, (no_listener_filter e w H). reflexivity.
Qed.

End EmissionFacts.

Section ParallelFacts.

Context {Data : Type} `{!Promises Data}.

Local Abbreviation World := (World Data).
Local Abbreviation Listener := (Listener Data).

Implicit Types (w : World) (l : Listener) (ls : list Listener) (d : Data).

(** An invocation records at most the call it makes, on the value given. *)
Lemma invoke_calls l d w :
  exists new, calls (fst (invoke l d w)) = calls w ++ new
              /\ Forall (fun c => input c = d) new.
Proof.
  unfold invoke. destruct (cb l) as [f|cell f].
  - eexists. split; [reflexivity|]. repeat constructor.
  - unfold bind, gets, call, dispose, modify, ret. simpl.
    destruct (bool_decide (cell ∈ removed w)); simpl.
    + exists []. rewrite app_nil_r. split; [reflexivity | constructor].
    + destruct (f d); simpl; (eexists; split; [reflexivity|]); repeat constructor.
Qed.

Lemma map_calls ls d w :
  exists new, calls (fst (js_map (fun l => invoke l d) ls w)) = calls w ++ new
              /\ Forall (fun c => input c = d) new.
Proof.
  revert w. induction ls as [|l ls IH]; intros w.
  - exists []. rewrite app_nil_r. split; [reflexivity | constructor].
  - rewrite js_map_cons.
    destruct (invoke_calls l d w) as (n1 & E1 & F1).
    destruct (invoke l d w) as [w1 [r1|err]]; simpl in E1.
    + destruct (IH w1) as (n2 & E2 & F2).
      destruct (js_map _ ls w1) as [w2 [rs|err]]; simpl in E2 |- *;
        (exists (n1 ++ n2); split;
         [rewrite E2, E1, app_assoc; reflexivity | apply Forall_app; auto]).
    + exists n1. auto.
Qed.

Lemma map_resolve ls d w :
  js_map (fun l => let* value := invoke l d in ret (promise_resolve value)) ls w
  = match js_map (fun l => invoke l d) ls w
          return World * Outcome Data (list (Promise Data Data)) with
    | (w', Returned results) => (w', Returned (map promise_resolve results))
    | (w', Threw err) => (w', Threw err)
    end.
Proof.
  revert w. induction ls as [|l ls IH]; intros w; [reflexivity|].
  rewrite !js_map_cons. unfold bind at 1.
  destruct (invoke l d w) as [w1 [r1|err]]; [|reflexivity].
  unfold ret at 1. rewrite IH.
  destruct (js_map _ ls w1) as [w2 [rs|err]]; reflexivity.
Qed.

(** Waiting for promises that were resolved with values runs nothing. *)
Lemma settle_each_resolved (results : list Data) w :
  settle_each (map promise_resolve results) w = (w, map await results).
Proof.
  induction results as [|r rs IH]; [reflexivity|].
  change (settle_each (map promise_resolve (r :: rs)) w)
    with (let '(w2, os) := settle_each (map promise_resolve rs) w in
          (w2, await r :: os)).
  rewrite IH. reflexivity.
Qed.

Lemma all_resolved_state (results : list Data) w :
  fst (promise_all (map promise_resolve results) w) = w.
Proof.
  unfold promise_all. rewrite settle_each_resolved.
  destruct (rejections (map await results)); reflexivity.
Qed.

Lemma rejections_of_results (results : list Data) err :
  In err (rejections (map await results))
  <-> exists r, In r results /\ await r = Threw err.
Proof.
  induction results as [|r rs IH]; simpl.
  - split; [intros [] | intros (r & [] & _)].
  - destruct (await r) as [x|e] eqn:E; simpl.
    + rewrite IH. split.
      * intros (r' & Hin & Hr). exists r'. auto.
      * intros (r' & [<-|Hin] & Hr); [congruence | exists r'; auto].
    + rewrite IH. split.
      * intros [<-|(r' & Hin & Hr)]; [exists r; auto | exists r'; auto].
      * intros (r' & [<-|Hin] & Hr); [left; congruence | right; exists r'; auto].
Qed.

Lemma all_fulfilled (results values : list Data) :
  Forall2 (fun r v => await r = Returned v) results values ->
  rejections (map await results) = []
  /\ fulfilments (map await results) = values.
Proof.
  induction 1 as [|r v rs vs Hr _ [IH1 IH2]]; [split; reflexivity|].
  simpl. rewrite Hr. simpl. rewrite IH1, IH2. split; reflexivity.
Qed.

(** The promise of [Promise.all] over the resolved results gathers them. *)
Lemma all_resolved_gathers (results : list Data) :
  gathers (promise_all (map promise_resolve results)) results.
Proof.
  split.
  - intros values Hv w. unfold promise_all. rewrite settle_each_resolved.
    destruct (all_fulfilled _ _ Hv) as [-> ->]. reflexivity.
  - intros (r & err & Hin & Hr).
    assert (Hne : In err (rejections (map await results)))
      by (apply rejections_of_results; exists r; auto).
    destruct (rejections (map await results)) as [|e es] eqn:E; [destruct Hne|].
    pose proof (first_rejection_in e es) as Hfirst.
    rewrite <- E in Hfirst at 2. apply rejections_of_results in Hfirst.
    destruct Hfirst as (r' & Hin' & Hr').
    exists r', (first_rejection (e :: es)). split; [exact Hin'|].
    split; [exact Hr'|]. intros w. unfold promise_all.
    rewrite settle_each_resolved, E. reflexivity.
Qed.

Lemma emitParallel_unfold e d w :
  emitParallel e d w
  = match js_map (fun l => invoke l d) (list_ e (Some true) w) w
          return World * Outcome Data (Promise Data (list Data)) with
    | (w', Returned results) =>
        (w', Returned (promise_all (map promise_resolve results)))
    | (w', Threw err) => (w', Threw err)
    end.
Proof.
  unfold emitParallel, bind at 1, gets. rewrite list_default.
  unfold bind at 1. rewrite map_resolve.
  destruct (js_map _ (list_ e (Some true) w) w) as [w' [rs|err]]; reflexivity.
Qed.

End ParallelFacts.

(** C5. [emitSync(e, data)] returns [result] exactly when, with the
    listeners of [list(e, true)] taken in order, [result_0 = data],
    each callback returns [result_i] on [result_(i-1)], and [result] is
    the last of these; it throws exactly what the first callback to throw
    throws. When the callbacks are total functions the result is their
    left fold over [data], and the bus is as before. With a priority-1
    listener [d + 1] and a priority-0 listener [d * 2] on ["x"],
    registered in either order where nobody listened to ["x"],
    [emitSync("x", 3)] returns 8. *)
Theorem emitSync_left_fold {Data : Type}
    (e : string) (data : Data) (w : World Data) :
  (forall w' result,
     emitSync e data w = (w', Returned result)
     <-> chained (list_ e (Some true) w) data w w' result)
  /\ (forall w' err,
        emitSync e data w = (w', Threw err)
        <-> exists pre l post w0 r0,
              list_ e (Some true) w = pre ++ l :: post
              /\ chained pre data w w0 r0
              /\ invoke l r0 w0 = (w', Threw err))
  /\ (forall fs,
        Forall2 computes (list_ e (Some true) w) fs ->
        exists w',
          emitSync e data w = (w', Returned (fold_left (fun r f => f r) fs data))
          /\ listeners w' = listeners w /\ plugins w' = plugins w
          /\ next_id w' = next_id w)
  /\ (forall w0 : World Z,
        list_ "x" (Some false) w0 = [] ->
        let inc := Plain (fun d => Returned (d + 1)%Z) in
        let dbl := Plain (fun d => Returned (d * 2)%Z) in
        snd (emitSync "x" 3%Z
               (fst (on "x" dbl (Some 0%Z) (fst (on "x" inc (Some 1%Z) w0)))))
        = Returned 8%Z
        /\ snd (emitSync "x" 3%Z
                  (fst (on "x" inc (Some 1%Z) (fst (on "x" dbl (Some 0%Z) w0)))))
           = Returned 8%Z).
Proof.
  split; [intros w' result; rewrite emitSync_unfold;
          apply reduce_returns_iff_chained|].
  split; [intros w' err; rewrite emitSync_unfold; apply reduce_throws_iff|].
  split.
  { intros fs Hfs. rewrite emitSync_unfold.
    destruct (reduce_computes _ _ data w Hfs) as (w' & E & ? & ? & ? & _).
    exists w'. auto. }
  intros w0 H0 inc dbl. split.
  - rewrite emitSync_unfold, (list_after_two_on _ _ _ _ _ _ H0). reflexivity.
  - rewrite emitSync_unfold, (list_after_two_on _ _ _ _ _ _ H0). reflexivity.
Qed.

Lemma emitSync_left_fold_witness :
  list_ "x" (Some false) (@new_bus Z) = []
  /\ snd (emitSync "x" 3%Z
            (fst (on "x" (Plain (fun d => Returned (d * 2)%Z)) (Some 0%Z)
                    (fst (on "x" (Plain (fun d => Returned (d + 1)%Z))
                            (Some 1%Z) new_bus)))))
     = Returned 8%Z.
Proof.
  split; [reflexivity|].
  destruct (emitSync_left_fold "x" 3%Z (@new_bus Z)) as (_ & _ & _ & H).
  exact (proj1 (H new_bus eq_refl)).
Defined.

(** C6. The parallel strategies call every listener of [list(e, true)],
    in that order, on the same original [data]: [emitParallelSync]
    returns [results] exactly when each listener returns the value at
    its position in [results]; [emitParallel] then returns a promise
    that gathers the same [results] in the same order, whichever
    promise among them settles first: it is fulfilled with the values
    the results are or are fulfilled with, each at the position of its
    listener. Every call that either strategy makes is on [data]. When
    the callbacks are total functions the result is their values at
    [data]. With a priority-1 listener [d + 1] and a priority-0 listener
    [d * 2] on ["x"], [emitParallelSync("x", 3)] returns [[4; 6]]; when
    the first listener returns a promise of [d + 1] instead, the promise
    of [emitParallel("x", 3)] is still fulfilled with [[4; 6]]. *)
Theorem parallel_same_data_list_order {Data : Type} `{!Promises Data}
    (e : string) (data : Data) (w : World Data) :
  (forall w' results,
     emitParallelSync e data w = (w', Returned results)
     <-> delivered (list_ e (Some true) w) data w w' results)
  /\ (forall w' results,
        delivered (list_ e (Some true) w) data w w' results ->
        exists p, emitParallel e data w = (w', Returned p) /\ gathers p results)
  /\ (forall w' p,
        emitParallel e data w = (w', Returned p) ->
        exists results,
          delivered (list_ e (Some true) w) data w w' results
          /\ gathers p results)
  /\ (exists new,
        calls (fst (emitParallelSync e data w)) = calls w ++ new
        /\ Forall (fun c => input c = data) new)
  /\ (exists new,
        calls (fst (emitParallel e data w)) = calls w ++ new
        /\ Forall (fun c => input c = data) new)
  /\ (forall fs,
        Forall2 computes (list_ e (Some true) w) fs ->
        exists w',
          emitParallelSync e data w = (w', Returned (map (fun f => f data) fs))
          /\ listeners w' = listeners w /\ plugins w' = plugins w
          /\ next_id w' = next_id w)
  /\ (forall w0 : World Z,
        list_ "x" (Some false) w0 = [] ->
        let inc := Plain (fun d => Returned (d + 1)%Z) in
        let dbl := Plain (fun d => Returned (d * 2)%Z) in
        snd (emitParallelSync "x" 3%Z
               (fst (on "x" dbl (Some 0%Z) (fst (on "x" inc (Some 1%Z) w0)))))
        = Returned [4%Z; 6%Z]
        /\ snd (emitParallelSync "x" 3%Z
                  (fst (on "x" inc (Some 1%Z) (fst (on "x" dbl (Some 0%Z) w0)))))
           = Returned [4%Z; 6%Z])
  /\ (forall w0 : World Sample,
        list_ "x" (Some false) w0 = [] ->
        let inc_later :=
          Plain (fun d => match d with
                          | Num z => Returned (Fulfilling (z + 1))
                          | _ => Returned d
                          end) in
        let dbl :=
          Plain (fun d => match d with
                          | Num z => Returned (Num (z * 2))
                          | _ => Returned d
                          end) in
        let w1 := fst (on "x" dbl (Some 0%Z)
                         (fst (on "x" inc_later (Some 1%Z) w0))) in
        snd (emitParallelSync "x" (Num 3) w1)
        = Returned [Fulfilling 4; Num 6]
        /\ exists p, snd (emitParallel "x" (Num 3) w1) = Returned p
                     /\ settles_to p [Num 4; Num 6]).
Proof.
  split; [intros w' results; rewrite emitParallelSync_unfold;
          apply map_returns_iff_delivered|].
  split.
  { intros w' results Hd. apply map_returns_iff_delivered in Hd.
    rewrite emitParallel_unfold, Hd. eexists.
    split; [reflexivity | apply all_resolved_gathers]. }
  split.
  { intros w' p. rewrite emitParallel_unfold.
    destruct (js_map _ (list_ e (Some true) w) w) as [w1 [rs|err]] eqn:E;
      [|discriminate].
    intros [= <- <-]. exists rs.
    split; [apply map_returns_iff_delivered, E | apply all_resolved_gathers]. }
  split; [rewrite emitParallelSync_unfold; apply map_calls|].
  split.
  { rewrite emitParallel_unfold.
    destruct (map_calls (list_ e (Some true) w) data w) as (new & E & F).
    exists new. split; [|exact F]. rewrite <- E.
    destruct (js_map _ (list_ e (Some true) w) w) as [w1 [rs|err]]; reflexivity. }
  split.
  { intros fs Hfs. rewrite emitParallelSync_unfold.
    destruct (map_computes _ _ data w Hfs) as (w' & E & ? & ? & ? & _).
    exists w'. auto. }
  split.
  { intros w0 H0 inc dbl. split.
    - rewrite emitParallelSync_unfold, (list_after_two_on _ _ _ _ _ _ H0).
      reflexivity.
    - rewrite emitParallelSync_unfold, (list_after_two_on _ _ _ _ _ _ H0).
      reflexivity. }
  intros w0 H0 inc_later dbl w1. subst w1. split.
  - rewrite emitParallelSync_unfold, (list_after_two_on _ _ _ _ _ _ H0).
    reflexivity.
  - rewrite emitParallel_unfold, (list_after_two_on _ _ _ _ _ _ H0).
    eexists. split; [reflexivity|].
    apply (all_resolved_gathers [Fulfilling 4; Num 6]).
    repeat constructor.
Qed.

Lemma parallel_same_data_list_order_witness :
  list_ "x" (Some false) (@new_bus Z) = []
  /\ snd (emitParallelSync "x" 3%Z
            (fst (on "x" (Plain (fun d => Returned (d * 2)%Z)) (Some 0%Z)
                    (fst (on "x" (Plain (fun d => Returned (d + 1)%Z))
                            (Some 1%Z) new_bus)))))
     = Returned [4%Z; 6%Z].
Proof.
  split; [reflexivity|].
  destruct (parallel_same_data_list_order "x" 3%Z (@new_bus Z))
    as (_ & _ & _ & _ & _ & _ & H & _).
  exact (proj1 (H new_bus eq_refl)).
Defined.

(** C10. When no listener has the mask [e], [emitSync(e, data)] returns
    [data], [emit(e, data)] returns a promise resolved with [data] (it
    settles to [data], for a [data] that is not itself a promise),
    [emitParallelSync(e, data)] returns the empty sequence and
    [emitParallel(e, data)] a promise that settles to it; none of the
    calls changes the state, the listeners and plugins included. *)
Theorem emission_without_listeners {Data : Type} `{!Promises Data}
    (e : string) (data : Data) (w : World Data) :
  (forall l, In l (listeners w) -> mask l <> e) ->
  emitSync e data w = (w, Returned data)
  /\ (exists p, emit e data w = (w, Returned p)
                /\ resolves_with p data
                /\ (await data = Returned data -> settles_to p data))
  /\ emitParallelSync e data w = (w, Returned [])
  /\ (exists p, emitParallel e data w = (w, Returned p) /\ settles_to p [])
  /\ has e w = (w, Returned false).
Proof.
  intros H. pose proof (no_listener_list e w H) as Hl.
  split; [rewrite emitSync_unfold, Hl; reflexivity|].
  split.
  { exists (promise_resolve data).
    split; [unfold emit, bind, gets; rewrite list_default, Hl; reflexivity|].
    split; [intros w'; reflexivity|].
    intros Hplain w'. unfold promise_resolve. rewrite Hplain. reflexivity. }
  split; [rewrite emitParallelSync_unfold, Hl; reflexivity|].
  split.
  { eexists. split; [rewrite emitParallel_unfold, Hl; reflexivity|].
    intros w'. reflexivity. }
  unfold has, bind, gets.
  rewrite list_unsorted, (no_listener_filter e w H). reflexivity.
Qed.

Lemma emission_without_listeners_witness :
  emitSync "x" 3%Z (@new_bus Z) = (new_bus, Returned 3%Z)
  /\ exists p, emit "x" 3%Z (@new_bus Z) = (new_bus, Returned p)
               /\ settles_to p 3%Z.
Proof.
  destruct (emission_without_listeners "x" 3%Z (@new_bus Z))
    as (E & (p & Ep & _ & Hp) & _).
  - intros l [].
  - split; [exact E|]. exists p. split; [exact Ep | exact (Hp eq_refl)].
Defined.

(* ===================================================================== *)
(** ** Properties of [off] *)
(* ===================================================================== *)

Section OffFacts.

Context {Data : Type}.

Local Abbreviation World := (World Data).
Local Abbreviation Listener := (Listener Data).

(** [!l.mask] is a boolean and [event] a string: never strictly equal. *)
Lemma off_keeps_nothing (l : Listener) (event : string) :
  strict_equals (js_not (JsString (mask l))) (JsString event) = false.
Proof. reflexivity. Qed.

Lemma off_clears (event : string) (w : World) :
  off event w = (set_listeners [] w, Returned []).
Proof.
  unfold off.
  assert (E : List.filter
                (fun l : Listener =>
                   strict_equals (js_not (JsString (mask l))) (JsString event))
                (listeners w) = []).
  { induction (listeners w) as [|l ls IH]; [reflexivity | exact IH]. }
  rewrite E. reflexivity.
Qed.

End OffFacts.

(** C1. [off(e)] does not keep the listeners of other masks: whatever
    the state and the event, no listener is left afterwards. With one
    listener on ["a"], [off("b")] leaves ["a"] without listener. *)
Theorem off_removes_listeners_of_other_masks :
  (forall (Data : Type) (w : World Data) (e : string),
     listeners (fst (off e w)) = [])
  /\ (let w := fst (on "a" (Plain (fun d : Z => Returned d)) None new_bus) in
      (exists l, In l (listeners w) /\ mask l = "a" /\ "a" <> "b")
      /\ snd (has "a" w) = Returned true
      /\ listeners (fst (off "b" w)) = []
      /\ snd (has "a" (fst (off "b" w))) = Returned false).
Proof.
  split; [intros Data w e; rewrite off_clears; reflexivity|].
  cbv zeta. split; [|repeat split; reflexivity].
  eexists. split; [left; reflexivity|]. split; [reflexivity | discriminate].
Qed.

(** C2, as stated, fails: with one listener on ["a"], that listener is
    registered before [off("a")] and not after. *)
Lemma off_is_not_inert :
  let w := fst (on "a" (Plain (fun d : Z => Returned d)) None new_bus) in
  ~ (forall l, In l (listeners w) -> In l (listeners (fst (off "a" w)))).
Proof.
  cbv zeta. intros H.
  apply (H {| mask := "a"; priority := 0%Z; cb := Plain (fun d : Z => Returned d);
             id := 0 |}).
  left. reflexivity.
Qed.

(** C2, amended. After [off(e)] no listener with the mask [e] is
    registered; the call registers nothing, and leaves the plugins, the
    id counter and the rest of the state as they were. *)
Theorem off_frame {Data : Type} (w : World Data) (e : string) :
  let w' := fst (off e w) in
  list_ e (Some false) w' = []
  /\ snd (has e w') = Returned false
  /\ (forall l, In l (listeners w') -> In l (listeners w))
  /\ plugins w' = plugins w
  /\ next_id w' = next_id w
  /\ removed w' = removed w
  /\ calls w' = calls w.
Proof.
  cbv zeta. rewrite off_clears. simpl. repeat split. intros l [].
Qed.

(* ===================================================================== *)
(** ** Properties of [once] *)
(* ===================================================================== *)

Section OnceFacts.

Context {Data : Type} `{!Promises Data}.

Local Abbreviation World := (World Data).
Local Abbreviation Listener := (Listener Data).

Implicit Types (w : World) (l : Listener) (ls : list Listener) (d : Data).

Lemma invoke_once_later l cell f d w :
  cb l = OnceWrapper cell f -> cell ∈ removed w ->
  invoke l d w = (w, Returned d).
Proof.
  intros E H. unfold invoke, bind, gets. rewrite E.
  rewrite (bool_decide_eq_true_2 _ H). reflexivity.
Qed.

Lemma invoke_once_returns l cell f d r w :
  cb l = OnceWrapper cell f -> cell ∉ removed w -> f d = Returned r ->
  invoke l d w
  = (set_removed ({[ cell ]} ∪ removed w)
       (set_listeners
          (List.filter (fun l' => negb (id l' =? cell)%nat) (listeners w))
          (set_calls (calls w ++ [ {| caller := ByOnce cell; input := d;
                                      output := Returned r |} ]) w)),
     Returned r).
Proof.
  intros E H Hf. unfold invoke, bind, gets, call, dispose, modify, ret.
  rewrite E, (bool_decide_eq_false_2 _ H). simpl. rewrite Hf. reflexivity.
Qed.

Lemma invoke_once_throws l cell f d err w :
  cb l = OnceWrapper cell f -> cell ∉ removed w -> f d = Threw err ->
  invoke l d w
  = (set_calls (calls w ++ [ {| caller := ByOnce cell; input := d;
                               output := Threw err |} ]) w,
     Threw err).
Proof.
  intros E H Hf. unfold invoke, bind, gets, call.
  rewrite E, (bool_decide_eq_false_2 _ H). simpl. rewrite Hf. reflexivity.
Qed.

(** *** What every invocation preserves, every emission preserves *)

Section Preserved.

Variable P : World -> Prop.
Hypothesis invoke_preserves : forall l d w, P w -> P (fst (invoke l d w)).

Lemma reduce_preserves ls d w :
  P w -> P (fst (js_reduce (fun r l => invoke l r) ls d w)).
Proof.
  revert d w. induction ls as [|l ls IH]; intros d w H; [exact H|].
  rewrite js_reduce_cons. pose proof (invoke_preserves l d w H) as H1.
  destruct (invoke l d w) as [w1 [r1|err]]; [apply IH|]; exact H1.
Qed.

Lemma map_preserves ls d w :
  P w -> P (fst (js_map (fun l => invoke l d) ls w)).
Proof.
  revert w. induction ls as [|l ls IH]; intros w H; [exact H|].
  rewrite js_map_cons. pose proof (invoke_preserves l d w H) as H1.
  destruct (invoke l d w) as [w1 [r1|err]]; [|exact H1].
  specialize (IH w1 H1).
  destruct (js_map _ ls w1) as [w2 [rs|err]]; exact IH.
Qed.

Lemma bind_assoc {A B C} (c : M Data A) (k1 : A -> M Data B) (k2 : B -> M Data C) w :
  bind (bind c k1) k2 w = bind c (fun x => bind (k1 x) k2) w.
Proof.
  unfold bind. destruct (c w) as [w1 [a|err]]; reflexivity.
Qed.

(** The promise of [emit] runs the listeners one after the other, each
    on what the one before returned, once that is settled. *)
Lemma emit_promise_runs ls (p : Promise Data Data) w :
  fold_left (fun result listener =>
               promise_then result (fun r => invoke listener r)) ls p w
  = bind p (fun r => js_reduce
                       (fun r' l => let* value := invoke l r' in
                                    promise_resolve value) ls r) w.
Proof.
  revert p. induction ls as [|l ls IH]; intros p.
  - simpl. unfold bind, ret. destruct (p w) as [w1 [r|err]]; reflexivity.
  - simpl fold_left. rewrite IH. unfold promise_then.
    rewrite bind_assoc. reflexivity.
Qed.

Lemma reduce_awaited_preserves ls d w :
  P w ->
  P (fst (js_reduce (fun r l => let* value := invoke l r in
                                promise_resolve value) ls d w)).
Proof.
  revert d w. induction ls as [|l ls IH]; intros d w H; [exact H|].
  rewrite js_reduce_cons. pose proof (invoke_preserves l d w H) as H1.
  unfold bind at 1. destruct (invoke l d w) as [w1 [r1|err]]; [|exact H1].
  unfold promise_resolve at 1. destruct (await r1); [apply IH|]; exact H1.
Qed.

Lemma emit_promise_preserves ls d w :
  P w ->
  P (fst (fold_left (fun result listener =>
                       promise_then result (fun r => invoke listener r))
            ls (promise_resolve d) w)).
Proof.
  intros H. rewrite emit_promise_runs. unfold bind, promise_resolve at 1.
  destruct (await d); [apply reduce_awaited_preserves|]; exact H.
Qed.

Lemma run_emission_preserves m w : P w -> P (run_emission m w).
Proof.
  intros H. destruct m as [e d|e d|e d|e d]; simpl.
  - apply emit_promise_preserves, H.
  - rewrite emitSync_unfold. apply reduce_preserves, H.
  - rewrite emitParallel_unfold.
    pose proof (map_preserves (list_ e (Some true) w) d w H) as H1.
    destruct (js_map _ (list_ e (Some true) w) w) as [w1 [rs|err]];
      [|exact H1].
    simpl. rewrite (all_resolved_state rs w1). exact H1.
  - rewrite emitParallelSync_unfold. apply map_preserves, H.
Qed.

Lemma run_emissions_preserves ms w : P w -> P (run_emissions ms w).
Proof.
  unfold run_emissions. revert w.
  induction ms as [|m ms IH]; intros w H; [exact H|].
  simpl. apply IH, run_emission_preserves, H.
Qed.

End Preserved.

Lemma run_emissions_app ms ms' w :
  run_emissions (ms ++ ms') w = run_emissions ms' (run_emissions ms w).
Proof. unfold run_emissions. apply fold_left_app. Qed.

Lemma completions_app cell (cs cs' : list (Call Data)) :
  completions cell (cs ++ cs') = completions cell cs + completions cell cs'.
Proof. unfold completions. rewrite List.filter_app, length_app. reflexivity. Qed.

Lemma executions_app cell (cs cs' : list (Call Data)) :
  executions cell (cs ++ cs') = executions cell cs + executions cell cs'.
Proof. unfold executions. rewrite List.filter_app, length_app. reflexivity. Qed.

(** Once the cell holds [true] it keeps holding it, and the function of
    the [once] is not executed any more. *)
Lemma invoke_after_removed cell n l d w :
  cell ∈ removed w /\ executions cell (calls w) = n ->
  cell ∈ removed (fst (invoke l d w))
  /\ executions cell (calls (fst (invoke l d w))) = n.
Proof.
  intros [Hr Hn]. unfold invoke. destruct (cb l) as [f|cell' f] eqn:E.
  - simpl. split; [exact Hr|]. rewrite executions_app, Hn.
    unfold executions. simpl. lia.
  - destruct (decide (cell' ∈ removed w)) as [Hin|Hout].
    + unfold bind, gets. rewrite (bool_decide_eq_true_2 _ Hin). simpl. auto.
    + assert (cell' <> cell) by (intros ->; contradiction).
      assert (Hb : (cell' =? cell)%nat = false) by (apply Nat.eqb_neq; assumption).
      unfold bind, gets, call, dispose, modify, ret.
      rewrite (bool_decide_eq_false_2 _ Hout). simpl.
      destruct (f d); simpl.
      * split; [set_solver|]. rewrite executions_app, Hn.
        unfold executions, by_once. simpl. rewrite Hb. simpl. lia.
      * split; [exact Hr|]. rewrite executions_app, Hn.
        unfold executions, by_once. simpl. rewrite Hb. simpl. lia.
Qed.

(** The function of the [once] returns at most once more while the cell
    holds [false], and not at all when it holds [true]. *)
Lemma invoke_completions cell base l d w :
  (cell ∉ removed w -> completions cell (calls w) = base)
  /\ completions cell (calls w) <= base + 1 ->
  (cell ∉ removed (fst (invoke l d w))
   -> completions cell (calls (fst (invoke l d w))) = base)
  /\ completions cell (calls (fst (invoke l d w))) <= base + 1.
Proof.
  intros [H0 H1]. unfold invoke. destruct (cb l) as [f|cell' f] eqn:E.
  - simpl. rewrite completions_app. unfold completions at 2 4. simpl.
    rewrite Nat.add_0_r. auto.
  - destruct (decide (cell' ∈ removed w)) as [Hin|Hout].
    + unfold bind, gets. rewrite (bool_decide_eq_true_2 _ Hin). simpl. auto.
    + unfold bind, gets, call, dispose, modify, ret.
      rewrite (bool_decide_eq_false_2 _ Hout). simpl.
      destruct (Nat.eqb_spec cell' cell) as [->|Hne].
      * specialize (H0 Hout).
        destruct (f d) eqn:Hf; simpl; rewrite completions_app, H0;
          unfold completions, by_once, has_returned; simpl;
          rewrite Nat.eqb_refl; simpl.
        -- split; [intros Hx; exfalso; apply Hx; set_solver | lia].
        -- rewrite Nat.add_0_r. split; [reflexivity | lia].
      * assert (Hb : (cell' =? cell)%nat = false) by (apply Nat.eqb_neq; assumption).
        destruct (f d); simpl; rewrite completions_app;
          unfold completions at 2 4, by_once; simpl; rewrite Hb; simpl.
        -- rewrite Nat.add_0_r. split; [intros Hx; apply H0; set_solver | lia].
        -- rewrite Nat.add_0_r. split; assumption.
Qed.

Lemma once_registers m (f : UserFunction Data) prio w :
  once m f prio w
  = (set_listeners
       (listeners w ++ [ {| mask := m; priority := default 0%Z prio;
                            cb := OnceWrapper (next_id w) f; id := next_id w |} ])
       (set_next_id (S (next_id w))
          (set_removed (removed w ∖ {[ next_id w ]}) w)),
     Returned (dispose (next_id w))).
Proof. reflexivity. Qed.

End OnceFacts.

(** C9, as stated, fails: a function registered with [once] that throws
    is executed again by the next emission; after two emissions of
    ["x"] it has been executed twice, and is still registered. *)
Lemma once_listener_that_throws_runs_again :
  let w1 := fst (once "x" (fun d : Z => Threw (Raised d)) None new_bus) in
  let w3 := run_emissions [EmitSync "x" 1%Z; EmitSync "x" 2%Z] w1 in
  ~ (executions (next_id (@new_bus Z)) (calls w3) <= 1)
  /\ snd (has "x" w3) = Returned true.
Proof.
  cbv zeta. split; [|reflexivity].
  assert (E : executions (next_id (@new_bus Z))
                (calls (run_emissions [EmitSync "x" 1%Z; EmitSync "x" 2%Z]
                   (fst (once "x" (fun d : Z => Threw (Raised d)) None new_bus))))
              = 2) by reflexivity.
  rewrite E. lia.
Qed.

(** C9, amended. [once(mask, f, priority)] registers a wrapper of [f]
    with a fresh cell holding [false]. Invoked while the cell holds
    [false] on a value where [f] returns, the wrapper executes [f],
    removes its registration, sets the cell and returns the result of
    [f]; invoked once the cell holds [true], it returns its input and
    changes nothing, [f] not being executed. Hence across any emissions
    after the registration [f] returns at most once, the cell holds
    [true] once it has, and from then on [f] is not executed again. *)
Theorem once_returns_at_most_once {Data : Type} `{!Promises Data}
    (m : string) (f : UserFunction Data) (prio : option Z) (w : World Data) :
  let cell := next_id w in
  let w1 := fst (once m f prio w) in
  (listeners w1
   = listeners w ++ [ {| mask := m; priority := default 0%Z prio;
                         cb := OnceWrapper cell f; id := cell |} ]
   /\ (cell ∉ removed w1) /\ calls w1 = calls w
   /\ snd (once m f prio w) = Returned (dispose cell))
  /\ (forall l d r w',
        cb l = OnceWrapper cell f -> cell ∉ removed w' -> f d = Returned r ->
        exists w'',
          invoke l d w' = (w'', Returned r)
          /\ listeners w''
             = List.filter (fun l' => negb (id l' =? cell)%nat) (listeners w')
          /\ cell ∈ removed w''
          /\ calls w'' = calls w' ++ [ {| caller := ByOnce cell; input := d;
                                          output := Returned r |} ])
  /\ (forall l d w',
        cb l = OnceWrapper cell f -> cell ∈ removed w' ->
        invoke l d w' = (w', Returned d))
  /\ (forall ms,
        completions cell (calls (run_emissions ms w1))
        <= completions cell (calls w1) + 1
        /\ (cell ∉ removed (run_emissions ms w1) ->
            completions cell (calls (run_emissions ms w1))
            = completions cell (calls w1)))
  /\ (forall ms ms',
        cell ∈ removed (run_emissions ms w1) ->
        cell ∈ removed (run_emissions (ms ++ ms') w1)
        /\ executions cell (calls (run_emissions (ms ++ ms') w1))
           = executions cell (calls (run_emissions ms w1))).
Proof.
  cbv zeta. rewrite once_registers. simpl.
  split.
  { split; [reflexivity|]. split; [|split; reflexivity].
    intros [_ Hn]%elem_of_difference. apply Hn, elem_of_singleton. reflexivity. }
  split.
  { intros l d r w' E Hout Hf. eexists.
    split; [apply (invoke_once_returns _ _ _ _ _ _ E Hout Hf)|].
    simpl. repeat split. set_solver. }
  split; [intros l d w' E Hin; apply (invoke_once_later _ _ _ _ _ E Hin)|].
  split.
  { intros ms. apply and_comm.
    apply (run_emissions_preserves
             (fun w' => (next_id w ∉ removed w'
                         -> completions (next_id w) (calls w')
                            = completions (next_id w) (calls w))
                        /\ completions (next_id w) (calls w')
                           <= completions (next_id w) (calls w) + 1)).
    - intros l d w'. apply invoke_completions.
    - simpl. split; [reflexivity | lia]. }
  intros ms ms' Hin. rewrite run_emissions_app.
  apply (run_emissions_preserves
           (fun w' => next_id w ∈ removed w'
                      /\ executions (next_id w) (calls w')
                         = executions (next_id w)
                             (calls (run_emissions ms
                                (set_listeners
                                   (listeners w ++
                                    [ {| mask := m; priority := default 0%Z prio;
                                         cb := OnceWrapper (next_id w) f;
                                         id := next_id w |} ])
                                   (set_next_id (S (next_id w))
                                      (set_removed (removed w ∖ {[ next_id w ]}) w))))))).
  - intros l d w'. apply invoke_after_removed.
  - split; [exact Hin | reflexivity].
Qed.

Lemma once_returns_at_most_once_witness :
  let f : UserFunction Z := fun d => Returned (d + 1)%Z in
  let w1 := fst (once "x" f None new_bus) in
  let l := {| mask := "x"; priority := 0%Z; cb := OnceWrapper 0 f; id := 0 |} in
  let w2 := fst (emitSync "x" 3%Z w1) in
  cb l = OnceWrapper 0 f
  /\ 0 ∈ removed w2
  /\ invoke l 7%Z w2 = (w2, Returned 7%Z).
Proof.
  cbv zeta. split; [reflexivity|].
  assert (H : 0 ∈ removed (fst (emitSync "x" 3%Z
                 (fst (once "x" (fun d : Z => Returned (d + 1)%Z) None new_bus)))))
    by (apply (bool_decide_unpack _); vm_compute; exact I).
  split; [exact H|].
  destruct (once_returns_at_most_once "x" (fun d : Z => Returned (d + 1)%Z)
              None new_bus) as (_ & _ & Hlater & _).
  apply Hlater; [reflexivity | exact H].
Defined.

(* ===================================================================== *)
(** ** Properties of [plugin] *)
(* ===================================================================== *)

Section PluginFacts.

Context {Data : Type}.

Local Abbreviation World := (World Data).
Local Abbreviation Plugin := (Plugin Data).

Implicit Types (w : World) (pl : Plugin) (key : string) (options : Data).

Lemma plugins_get_own key w provided :
  plugins w !! key = Some provided -> plugins_get key w = Own provided.
Proof. unfold plugins_get. intros ->. reflexivity. Qed.

Lemma plugins_get_undefined key w :
  plugins w !! key = None -> inherited key = false ->
  plugins_get key w = Undefined.
Proof. unfold plugins_get. intros -> ->. reflexivity. Qed.

Lemma falsy_not_recorded key w :
  truthy (plugins_get key w) = false -> plugins w !! key = None.
Proof.
  unfold plugins_get. destruct (plugins w !! key); [discriminate|reflexivity].
Qed.

Lemma dependency_of_key (deps : list (string * string)) key :
  In key (object_keys deps) -> exists v, dependency deps key = Some v.
Proof.
  induction deps as [|[k v] deps IH]; simpl; [intros []|].
  destruct (String.eqb_spec k key) as [->|Hne]; [eauto|].
  intros [E|Hin]; [contradiction | apply IH, Hin].
Qed.

(** A check reads the state and leaves it as it is. *)
Lemma check_dependency_state pl key w :
  fst (check_dependency pl key w) = w.
Proof.
  unfold check_dependency, bind, gets, throw, ret.
  destruct (plugins_get key w) as [provided| |]; simpl; try reflexivity;
    destruct (dependency _ key); try reflexivity.
  destruct (_ >? 0)%Z; reflexivity.
Qed.

Lemma check_missing pl key w :
  missing key w -> inherited key = false ->
  check_dependency pl key w
  = (w, Threw (MissingDependency key (name (plugin_descriptor pl)))).
Proof.
  intros Hm Hi. unfold check_dependency, bind, gets.
  rewrite (plugins_get_undefined _ _ Hm Hi). reflexivity.
Qed.

Lemma check_unmet pl key w provided versionNeeded :
  plugins w !! key = Some provided ->
  dependency (dependencies (plugin_descriptor pl)) key = Some versionNeeded ->
  (compareVersion versionNeeded (version provided) > 0)%Z ->
  check_dependency pl key w
  = (w, Threw (UnmetVersion key versionNeeded (name (plugin_descriptor pl))
                 (version provided))).
Proof.
  intros Hp Hd Hc. unfold check_dependency, bind, gets.
  rewrite (plugins_get_own _ _ _ Hp). simpl. rewrite Hd.
  replace (_ >? 0)%Z with true; [reflexivity|].
  symmetry. rewrite Z.gtb_ltb. apply Z.ltb_lt. lia.
Qed.

Lemma check_satisfied pl key w :
  satisfied pl w key <-> check_dependency pl key w = (w, Returned tt).
Proof.
  unfold satisfied, check_dependency, bind, gets. split.
  - intros (provided & versionNeeded & Hp & Hd & Hc).
    rewrite (plugins_get_own _ _ _ Hp). simpl. rewrite Hd.
    replace (_ >? 0)%Z with false; [reflexivity|].
    symmetry. rewrite Z.gtb_ltb. apply Z.ltb_ge. exact Hc.
  - unfold plugins_get.
    destruct (plugins w !! key) as [provided|] eqn:Hp; simpl.
    + destruct (dependency _ key) as [versionNeeded|] eqn:Hd; [|discriminate].
      destruct (_ >? 0)%Z eqn:Hc; [discriminate|]. intros _.
      exists provided, versionNeeded. repeat split.
      rewrite Z.gtb_ltb in Hc. apply Z.ltb_ge in Hc. exact Hc.
    + destruct (inherited key); simpl; [|discriminate].
      destruct (dependency _ key); discriminate.
Qed.

Lemma js_forEach_cons (f : string -> M Data unit) key keys w :
  js_forEach f (key :: keys) w
  = match f key w with
    | (w1, Returned _) => js_forEach f keys w1
    | (w1, Threw err) => (w1, Threw err)
    end.
Proof. reflexivity. Qed.

Lemma forEach_satisfied pl keys w :
  Forall (satisfied pl w) keys ->
  js_forEach (check_dependency pl) keys w = (w, Returned tt).
Proof.
  induction 1 as [|key keys Hk _ IH]; [reflexivity|].
  rewrite js_forEach_cons. apply check_satisfied in Hk. rewrite Hk. exact IH.
Qed.

Lemma forEach_first_failure pl pre key post w err :
  Forall (satisfied pl w) pre ->
  check_dependency pl key w = (w, Threw err) ->
  js_forEach (check_dependency pl) (pre ++ key :: post) w = (w, Threw err).
Proof.
  induction 1 as [|k pre Hk _ IH]; intros Hc; simpl app.
  - rewrite js_forEach_cons, Hc. reflexivity.
  - rewrite js_forEach_cons. apply check_satisfied in Hk. rewrite Hk.
    apply IH, Hc.
Qed.

Lemma forEach_outcome pl keys w :
  (Forall (satisfied pl w) keys
   /\ js_forEach (check_dependency pl) keys w = (w, Returned tt))
  \/ exists err, js_forEach (check_dependency pl) keys w = (w, Threw err).
Proof.
  induction keys as [|key keys IH].
  - left. split; [constructor | reflexivity].
  - rewrite js_forEach_cons. pose proof (check_dependency_state pl key w) as Hs.
    destruct (check_dependency pl key w) as [w1 [[]|err]] eqn:Hc;
      simpl in Hs; subst w1.
    + apply check_satisfied in Hc. destruct IH as [[Hall E]|[err E]].
      * left. split; [constructor; assumption | exact E].
      * right. exists err. exact E.
    + right. exists err. reflexivity.
Qed.

Lemma plugin_unfold pl options w :
  plugin pl options w
  = if truthy (plugins_get (name (plugin_descriptor pl)) w)
    then (w, Threw (DuplicatePlugin (name (plugin_descriptor pl))))
    else
      match js_forEach (check_dependency pl)
              (object_keys (dependencies (plugin_descriptor pl))) w with
      | (w1, Returned _) =>
          match plugin_body pl options w1 with
          | (w2, Returned _) => (recorded pl w2, Returned tt)
          | (w2, Threw err) => (w2, Threw err)
          end
      | (w1, Threw err) => (w1, Threw err)
      end.
Proof.
  unfold plugin, bind at 1, gets.
  destruct (truthy _); [reflexivity|]. unfold bind, modify.
  destruct (js_forEach _ _ w) as [w1 [[]|err]]; [|reflexivity].
  destruct (plugin_body pl options w1) as [w2 [[]|err]]; reflexivity.
Qed.

Lemma plugin_checks_fail pl options w err :
  truthy (plugins_get (name (plugin_descriptor pl)) w) = false ->
  js_forEach (check_dependency pl)
    (object_keys (dependencies (plugin_descriptor pl))) w = (w, Threw err) ->
  plugin pl options w = (w, Threw err).
Proof. intros Ht Hf. rewrite plugin_unfold, Ht, Hf. reflexivity. Qed.

Lemma plugin_after_checks pl options w :
  checks_passed pl w ->
  plugin pl options w
  = match plugin_body pl options w with
    | (w1, Returned _) => (recorded pl w1, Returned tt)
    | (w1, Threw err) => (w1, Threw err)
    end.
Proof.
  intros [Ht Hall]. rewrite plugin_unfold, Ht, (forEach_satisfied _ _ _ Hall).
  reflexivity.
Qed.

(** The checks pass, or they throw whatever the body is. *)
Lemma plugin_checks_outcome pl options w :
  checks_passed pl w
  \/ exists err, forall f, plugin (with_body pl f) options w = (w, Threw err).
Proof.
  destruct (truthy (plugins_get (name (plugin_descriptor pl)) w)) eqn:Ht.
  - right. eexists. intros f. rewrite plugin_unfold. simpl. rewrite Ht.
    reflexivity.
  - destruct (forEach_outcome pl
                (object_keys (dependencies (plugin_descriptor pl))) w)
      as [[Hall _]|[err E]].
    + left. split; assumption.
    + right. exists err. intros f. apply plugin_checks_fail; assumption.
Qed.

Lemma checks_passed_not_both pl options w err :
  checks_passed pl w ->
  (forall f, plugin (with_body pl f) options w = (w, Threw err)) -> False.
Proof.
  intros Hp Hf. specialize (Hf (fun _ => ret tt)).
  rewrite (plugin_after_checks (with_body pl (fun _ => ret tt)) options w Hp) in Hf.
  discriminate.
Qed.

End PluginFacts.

Section ValidationFacts.

Context {Data : Type}.

Local Abbreviation World := (World Data).
Local Abbreviation Plugin := (Plugin Data).

Implicit Types (w : World) (pl : Plugin) (key : string) (options : Data).

Lemma satisfied_not_missing pl w key : satisfied pl w key -> ~ missing key w.
Proof. intros (? & ? & Hp & _) Hm. unfold missing in Hm. congruence. Qed.

Lemma satisfied_not_unmet pl w key : satisfied pl w key -> ~ unmet pl key w.
Proof.
  intros (p1 & v1 & Hp1 & Hd1 & Hc1) (p2 & v2 & Hp2 & Hd2 & Hc2).
  rewrite Hp1 in Hp2. injection Hp2 as <-.
  rewrite Hd1 in Hd2. injection Hd2 as <-. lia.
Qed.

Lemma checks_passed_excludes pl w : checks_passed pl w -> ~ validation_fails pl w.
Proof.
  intros [Ht Hall] [[d Hd]|(key & Hin & [Hm|Hu])].
  - apply falsy_not_recorded in Ht. congruence.
  - rewrite List.Forall_forall in Hall.
    exact (satisfied_not_missing _ _ _ (Hall _ Hin) Hm).
  - rewrite List.Forall_forall in Hall.
    exact (satisfied_not_unmet _ _ _ (Hall _ Hin) Hu).
Qed.

(** A dependency is satisfied, missing, or of too low a version. *)
Lemma dependency_cases pl w key :
  In key (object_keys (dependencies (plugin_descriptor pl))) ->
  satisfied pl w key \/ missing key w \/ unmet pl key w.
Proof.
  intros Hin. destruct (plugins w !! key) as [provided|] eqn:Hp.
  - destruct (dependency_of_key _ _ Hin) as [versionNeeded Hd].
    destruct (Z_le_gt_dec (compareVersion versionNeeded (version provided)) 0).
    + left. exists provided, versionNeeded. auto.
    + right. right. exists provided, versionNeeded. auto.
  - right. left. exact Hp.
Qed.

(** The dependencies are all satisfied, or there is a first one, in the
    order of the keys, that is not. *)
Lemma first_unsatisfied pl w keys :
  incl keys (object_keys (dependencies (plugin_descriptor pl))) ->
  Forall (satisfied pl w) keys
  \/ exists pre key post,
       keys = pre ++ key :: post /\ Forall (satisfied pl w) pre
       /\ (missing key w \/ unmet pl key w).
Proof.
  induction keys as [|key keys IH]; intros Hincl; [left; constructor|].
  assert (Hin : In key (object_keys (dependencies (plugin_descriptor pl))))
    by (apply Hincl; left; reflexivity).
  destruct (dependency_cases pl w key Hin) as [Hs|Hbad].
  - destruct IH as [Hall|(pre & k & post & -> & Hpre & Hk)].
    + intros x Hx. apply Hincl. right. exact Hx.
    + left. constructor; assumption.
    + right. exists (key :: pre), k, post.
      split; [reflexivity|]. split; [constructor; assumption | exact Hk].
  - right. exists [], key, keys. split; [reflexivity|]. split; [constructor | exact Hbad].
Qed.

Lemma validation_fails_or_passed pl w :
  inherited (name (plugin_descriptor pl)) = false ->
  validation_fails pl w \/ checks_passed pl w.
Proof.
  intros Hn. destruct (plugins w !! name (plugin_descriptor pl)) as [d|] eqn:Hd.
  - left. left. exists d. exact Hd.
  - destruct (first_unsatisfied pl w _ (incl_refl _))
      as [Hall|(pre & key & post & E & _ & Hbad)].
    + right. split; [|exact Hall].
      rewrite (plugins_get_undefined _ _ Hd Hn). reflexivity.
    + left. right. exists key. split; [|exact Hbad].
      rewrite E. apply in_elt.
Qed.

End ValidationFacts.

(** C4. The checks of [plugin(pl, options)] come first and involve
    neither the body nor a change of state: either they pass, or the
    call throws the same error whatever the body is and leaves the state
    as it was. When they pass, nothing is recorded under the name of
    [pl] yet and the body runs on the unchanged state; if the body
    returns, the descriptor is recorded in the state the body left; if
    the body throws, the call throws the same and the state is the one
    the body left, listeners it registered included, with no descriptor
    added. Every outcome of the call is one of these. *)
Theorem plugin_checks_then_body_then_record {Data : Type}
    (pl : Plugin Data) (options : Data) (w : World Data) :
  let desc := plugin_descriptor pl in
  (checks_passed pl w
   \/ exists err, forall f, plugin (with_body pl f) options w = (w, Threw err))
  /\ (checks_passed pl w ->
      plugins w !! name desc = None
      /\ forall err, ~ (forall f, plugin (with_body pl f) options w = (w, Threw err)))
  /\ (checks_passed pl w -> forall w1,
        plugin_body pl options w = (w1, Returned tt) ->
        plugin pl options w = (recorded pl w1, Returned tt)
        /\ plugins (recorded pl w1) !! name desc = Some desc
        /\ listeners (recorded pl w1) = listeners w1)
  /\ (checks_passed pl w -> forall w1 err,
        plugin_body pl options w = (w1, Threw err) ->
        plugin pl options w = (w1, Threw err)
        /\ (plugins w1 = plugins w -> plugins w1 !! name desc = None))
  /\ (forall w' err,
        plugin pl options w = (w', Threw err) ->
        (w' = w /\ forall f, plugin (with_body pl f) options w = (w, Threw err))
        \/ (checks_passed pl w /\ plugin_body pl options w = (w', Threw err)))
  /\ (forall w',
        plugin pl options w = (w', Returned tt) ->
        checks_passed pl w
        /\ exists w1, plugin_body pl options w = (w1, Returned tt)
                      /\ w' = recorded pl w1).
Proof.
  cbv zeta.
  split; [apply plugin_checks_outcome|].
  split.
  { intros Hp. split; [apply falsy_not_recorded, Hp|].
    intros err Hf. exact (checks_passed_not_both _ _ _ _ Hp Hf). }
  split.
  { intros Hp w1 Hb. rewrite (plugin_after_checks _ _ _ Hp), Hb.
    split; [reflexivity|]. split; [apply lookup_insert_eq | reflexivity]. }
  split.
  { intros Hp w1 err Hb. rewrite (plugin_after_checks _ _ _ Hp), Hb.
    split; [reflexivity|]. intros ->. apply falsy_not_recorded, Hp. }
  split.
  { intros w' err H.
    destruct (plugin_checks_outcome pl options w) as [Hp|[err' Hf]].
    - right. split; [exact Hp|].
      rewrite (plugin_after_checks _ _ _ Hp) in H.
      destruct (plugin_body pl options w) as [w1 [[]|e1]]; [discriminate|].
      exact H.
    - left. pose proof (Hf (plugin_body pl)) as Hself.
      change (plugin pl options w = (w, Threw err')) in Hself.
      rewrite Hself in H. injection H as <- <-. split; [reflexivity | exact Hf]. }
  intros w' H.
  destruct (plugin_checks_outcome pl options w) as [Hp|[err' Hf]].
  - split; [exact Hp|]. rewrite (plugin_after_checks _ _ _ Hp) in H.
    destruct (plugin_body pl options w) as [w1 [[]|e1]]; [|discriminate].
    exists w1. split; [reflexivity|]. congruence.
  - pose proof (Hf (plugin_body pl)) as Hself.
    change (plugin pl options w = (w, Threw err')) in Hself.
    rewrite Hself in H. discriminate.
Qed.

Lemma plugin_checks_then_body_then_record_witness :
  let body : Z -> M Z unit :=
    fun _ => let* _ := on "x" (Plain (fun d => Returned d)) None in
             throw (Raised 5%Z) in
  let pl := createPlugin "a" "1.0.0" [] body in
  let w1 := fst (body 0%Z new_bus) in
  checks_passed pl new_bus
  /\ plugin pl 0%Z new_bus = (w1, Threw (Raised 5%Z))
  /\ length (listeners w1) = 1
  /\ plugins w1 !! "a" = None.
Proof.
  cbv zeta.
  assert (Hp : checks_passed
                 (createPlugin "a" "1.0.0" []
                    (fun _ : Z => let* _ := on "x" (Plain (fun d => Returned d)) None in
                                  throw (Raised 5%Z)))
                 new_bus)
    by (split; [reflexivity | constructor]).
  split; [exact Hp|].
  destruct (plugin_checks_then_body_then_record
              (createPlugin "a" "1.0.0" []
                 (fun _ : Z => let* _ := on "x" (Plain (fun d => Returned d)) None in
                               throw (Raised 5%Z)))
              0%Z new_bus)
    as (_ & _ & _ & Hthrow & _).
  destruct (Hthrow Hp _ _ eq_refl) as [E Hnone].
  split; [exact E|]. split; [reflexivity|]. apply Hnone. reflexivity.
Defined.

(** C3, as stated, fails: on a new bus a plugin without dependencies
    whose body throws makes [plugin] fail, although its name is not
    recorded and no dependency is missing or unmet. *)
Lemma plugin_fails_when_body_throws :
  let pl := createPlugin "a" "1.0.0" [] (fun _ : Z => throw (Raised 5%Z)) in
  ~ (fails (plugin pl 0%Z new_bus) <-> validation_fails pl new_bus).
Proof.
  cbv zeta. intros [Hfail _].
  destruct Hfail as [[d Hd]|(key & [] & _)].
  - exists (Raised 5%Z). reflexivity.
  - simpl in Hd. rewrite lookup_empty in Hd. discriminate.
Qed.

(** C3, amended. For a plugin whose name and dependency names are not
    names of members of [Object.prototype]: [plugin(pl, options)] throws
    [DuplicatePlugin] when the name of [pl] has a recorded descriptor;
    otherwise, at the first dependency in the order of the keys that is
    not satisfied, it throws [MissingDependency] when that name has no
    recorded descriptor and [UnmetVersion] when
    [compareVersion(versionNeeded, versionProvided) > 0]; a failed check
    leaves the state as it was. When none of these holds the body is
    called, and the call fails exactly when the body does. *)
Theorem plugin_failure_conditions {Data : Type}
    (pl : Plugin Data) (options : Data) (w : World Data) :
  let desc := plugin_descriptor pl in
  inherited (name desc) = false ->
  Forall (fun key => inherited key = false) (object_keys (dependencies desc)) ->
  (duplicate pl w ->
   plugin pl options w = (w, Threw (DuplicatePlugin (name desc))))
  /\ (~ duplicate pl w -> forall pre key post,
        object_keys (dependencies desc) = pre ++ key :: post ->
        Forall (satisfied pl w) pre ->
        (missing key w ->
         plugin pl options w = (w, Threw (MissingDependency key (name desc))))
        /\ (forall provided versionNeeded,
              plugins w !! key = Some provided ->
              dependency (dependencies desc) key = Some versionNeeded ->
              (compareVersion versionNeeded (version provided) > 0)%Z ->
              plugin pl options w
              = (w, Threw (UnmetVersion key versionNeeded (name desc)
                             (version provided)))))
  /\ (validation_fails pl w ->
      duplicate pl w
      \/ exists pre key post,
           object_keys (dependencies desc) = pre ++ key :: post
           /\ Forall (satisfied pl w) pre
           /\ (missing key w \/ unmet pl key w))
  /\ (~ validation_fails pl w ->
      plugin pl options w
      = match plugin_body pl options w with
        | (w1, Returned _) => (recorded pl w1, Returned tt)
        | (w1, Threw err) => (w1, Threw err)
        end)
  /\ (fails (plugin pl options w)
      <-> validation_fails pl w
          \/ (~ validation_fails pl w /\ fails (plugin_body pl options w))).
Proof.
  cbv zeta. intros Hname Hkeys.
  assert (Hdup : duplicate pl w ->
                 plugin pl options w
                 = (w, Threw (DuplicatePlugin (name (plugin_descriptor pl))))).
  { intros [d Hd]. rewrite plugin_unfold, (plugins_get_own _ _ _ Hd). reflexivity. }
  assert (Hfalsy : ~ duplicate pl w ->
                   truthy (plugins_get (name (plugin_descriptor pl)) w) = false).
  { intros Hnd.
    destruct (plugins w !! name (plugin_descriptor pl)) as [d|] eqn:Hd.
    - exfalso. apply Hnd. exists d. exact Hd.
    - rewrite (plugins_get_undefined _ _ Hd Hname). reflexivity. }
  assert (Hfirst : ~ duplicate pl w -> forall pre key post,
            object_keys (dependencies (plugin_descriptor pl)) = pre ++ key :: post ->
            Forall (satisfied pl w) pre ->
            (missing key w ->
             plugin pl options w
             = (w, Threw (MissingDependency key (name (plugin_descriptor pl)))))
            /\ (forall provided versionNeeded,
                  plugins w !! key = Some provided ->
                  dependency (dependencies (plugin_descriptor pl)) key
                  = Some versionNeeded ->
                  (compareVersion versionNeeded (version provided) > 0)%Z ->
                  plugin pl options w
                  = (w, Threw (UnmetVersion key versionNeeded
                                 (name (plugin_descriptor pl)) (version provided))))).
  { intros Hnd pre key post E Hpre.
    assert (Hi : inherited key = false).
    { rewrite List.Forall_forall in Hkeys. apply Hkeys. rewrite E. apply in_elt. }
    split.
    - intros Hm. apply plugin_checks_fail; [apply Hfalsy, Hnd|].
      rewrite E. apply forEach_first_failure; [exact Hpre|].
      apply check_missing; assumption.
    - intros provided versionNeeded Hp Hd Hc.
      apply plugin_checks_fail; [apply Hfalsy, Hnd|].
      rewrite E. apply forEach_first_failure; [exact Hpre|].
      apply check_unmet; assumption. }
  assert (Hshape : validation_fails pl w ->
            duplicate pl w
            \/ exists pre key post,
                 object_keys (dependencies (plugin_descriptor pl)) = pre ++ key :: post
                 /\ Forall (satisfied pl w) pre
                 /\ (missing key w \/ unmet pl key w)).
  { intros [Hd|(key & Hin & Hbad)]; [left; exact Hd|]. right.
    destruct (first_unsatisfied pl w _ (incl_refl _)) as [Hall|Hex]; [|exact Hex].
    exfalso. rewrite List.Forall_forall in Hall. specialize (Hall _ Hin).
    destruct Hbad as [Hm|Hu].
    - exact (satisfied_not_missing _ _ _ Hall Hm).
    - exact (satisfied_not_unmet _ _ _ Hall Hu). }
  assert (Hpass : ~ validation_fails pl w -> checks_passed pl w).
  { intros Hnv. destruct (validation_fails_or_passed pl w Hname); tauto. }
  split; [exact Hdup|]. split; [exact Hfirst|]. split; [exact Hshape|].
  split; [intros Hnv; apply plugin_after_checks, Hpass, Hnv|].
  split.
  - intros [err Herr].
    destruct (validation_fails_or_passed pl w Hname) as [Hv|Hp]; [left; exact Hv|].
    right. split; [apply checks_passed_excludes, Hp|].
    rewrite (plugin_after_checks _ _ _ Hp) in Herr.
    destruct (plugin_body pl options w) as [w1 [[]|e1]]; [discriminate|].
    exists e1. reflexivity.
  - intros [Hv|[Hnv [err Herr]]].
    + destruct (Hshape Hv) as [Hd|(pre & key & post & E & Hpre & [Hm|Hu])].
      * rewrite (Hdup Hd). eexists. reflexivity.
      * assert (Hnd : ~ duplicate pl w \/ duplicate pl w).
        { destruct (plugins w !! name (plugin_descriptor pl)) as [d|] eqn:Hd.
          - right. exists d. exact Hd.
          - left. intros [d' Hd']. congruence. }
        destruct Hnd as [Hnd|Hd]; [|rewrite (Hdup Hd); eexists; reflexivity].
        rewrite (proj1 (Hfirst Hnd _ _ _ E Hpre) Hm). eexists. reflexivity.
      * assert (Hnd : ~ duplicate pl w \/ duplicate pl w).
        { destruct (plugins w !! name (plugin_descriptor pl)) as [d|] eqn:Hd.
          - right. exists d. exact Hd.
          - left. intros [d' Hd']. congruence. }
        destruct Hnd as [Hnd|Hd]; [|rewrite (Hdup Hd); eexists; reflexivity].
        destruct Hu as (provided & versionNeeded & Hp & Hdep & Hc).
        rewrite (proj2 (Hfirst Hnd _ _ _ E Hpre) _ _ Hp Hdep Hc).
        eexists. reflexivity.
    + rewrite (plugin_after_checks _ _ _ (Hpass Hnv)).
      destruct (plugin_body pl options w) as [w1 [[]|e1]]; [discriminate|].
      eexists. reflexivity.
Qed.

Lemma plugin_failure_conditions_witness :
  let core := createPlugin "core" "1.2.0" [] (fun _ : Z => ret tt) in
  let ext := createPlugin "ext" "0.1.0" [("core", "1.3")] (fun _ : Z => ret tt) in
  let w := fst (plugin core 0%Z new_bus) in
  inherited "ext" = false
  /\ plugins w !! "core" = Some (plugin_descriptor core)
  /\ plugin ext 0%Z w = (w, Threw (UnmetVersion "core" "1.3" "ext" "1.2.0")).
Proof.
  cbv zeta. split; [reflexivity|].
  assert (Hcore : plugins (fst (plugin (createPlugin "core" "1.2.0" [] (fun _ : Z => ret tt))
                                  0%Z new_bus)) !! "core"
                  = Some (plugin_descriptor
                            (createPlugin "core" "1.2.0" [] (fun _ : Z => ret tt)))).
  { simpl. apply lookup_insert_eq. }
  split; [exact Hcore|].
  destruct (plugin_failure_conditions
              (createPlugin "ext" "0.1.0" [("core", "1.3")] (fun _ : Z => ret tt))
              0%Z
              (fst (plugin (createPlugin "core" "1.2.0" [] (fun _ : Z => ret tt))
                      0%Z new_bus)))
    as (_ & Hfirst & _).
  - reflexivity.
  - repeat constructor.
  - refine (proj2 (Hfirst _ [] "core" [] eq_refl (List.Forall_nil _))
                    _ "1.3" Hcore eq_refl _).
    + intros [d Hd]. vm_compute in Hd. discriminate.
    + reflexivity.
Defined.

(* ===================================================================== *)
(** ** The embedding on sample inputs *)
(* ===================================================================== *)

Example split_dot_sample : split_dot "1..2." = ["1"; ""; "2"; ""].
Proof. reflexivity. Qed.

Example split_dot_empty : split_dot "" = [""].
Proof. reflexivity. Qed.

Example parseInt10_samples :
  parseInt10 "10" = Fin 10 /\ parseInt10 " 12abc" = Fin 12
  /\ parseInt10 "-5" = Fin (-5) /\ parseInt10 "" = NaN
  /\ parseInt10 "x1" = NaN
  /\ parseInt10 "9007199254740993" = Fin 9007199254740992.
Proof. repeat split; vm_compute; reflexivity. Qed.

(** Outside the dotted-decimal strings a segment may be [NaN], which
    differs from every number and is greater than none. *)
Example compareVersion_empty_segment :
  compareVersion "1..2" "1.0.2" = (-1)%Z /\ compareVersion "1.x" "1.x" = (-1)%Z.
Proof. split; reflexivity. Qed.

Example compareVersion_fourth_segment :
  compareVersion "1.2.3.4" "1.2.3.9" = 0%Z.
Proof. reflexivity. Qed.

(** A disposer removes its listener once. *)
Example disposer_sample :
  let w := fst (on "x" (Plain (fun d : Z => Returned d)) None new_bus) in
  snd (dispose 0 w) = Returned 1%Z
  /\ snd (dispose 0 (fst (dispose 0 w))) = Returned 0%Z.
Proof. split; reflexivity. Qed.

(** A listener registered with [once] is gone after the first emission. *)
Example once_sample :
  let w1 := fst (once "x" (fun d : Z => Returned (d + 1)%Z) None new_bus) in
  emitSync "x" 3%Z w1 = (fst (emitSync "x" 3%Z w1), Returned 4%Z)
  /\ snd (has "x" (fst (emitSync "x" 3%Z w1))) = Returned false
  /\ snd (emitSync "x" 3%Z (fst (emitSync "x" 3%Z w1))) = Returned 3%Z.
Proof. repeat split; reflexivity. Qed.

(** A name that [Object.prototype] defines counts as installed. *)
Example plugin_named_constructor :
  plugin (createPlugin "constructor" "1.0.0" [] (fun _ : Z => ret tt)) 0%Z new_bus
  = (new_bus, Threw (DuplicatePlugin "constructor")).
Proof. reflexivity. Qed.

(* ===================================================================== *)
(** ** Further properties of the version strings *)
(* ===================================================================== *)

Section MoreVersionFacts.

Lemma split_dot_not_nil s : split_dot s <> [].
Proof.
  destruct s as [|c s]; simpl; [discriminate|].
  destruct (is_dot c); [discriminate|].
  destruct (split_dot s); discriminate.
Qed.

Lemma join_dot_cons_char c t ts :
  join_dot (String c t :: ts) = String c (join_dot (t :: ts)).
Proof. destruct ts; reflexivity. Qed.

Lemma read_digits_stops acc l c rest :
  forallb is_digit l = true -> is_digit c = false ->
  read_digits (Some acc) (string_of_list_ascii l +:+ String c rest)
  = Some (fold_left (fun a x => (10 * a + (N_of_ascii x - 48))%N) l acc).
Proof.
  intros Hl Hc. revert acc. induction l as [|x l IH]; intros acc; simpl in *.
  - unfold is_digit in Hc. destruct (digit_of c); [discriminate | reflexivity].
  - apply andb_true_iff in Hl as [Hx Hl]. unfold is_digit in Hx.
    destruct (digit_of x) as [d|] eqn:E; [|discriminate].
    apply digit_of_value in E. subst d. apply IH, Hl.
Qed.

Lemma strict_neq_self x : strict_neq x x = is_nan x.
Proof.
  destruct x as [|z|[]]; simpl; try reflexivity.
  rewrite Z.eqb_refl. reflexivity.
Qed.

Lemma strict_neq_sym x y : strict_neq x y = strict_neq y x.
Proof.
  destruct x as [|x|[]], y as [|y|[]]; simpl; try reflexivity.
  rewrite Z.eqb_sym. reflexivity.
Qed.

Lemma gt_asym x y : gt x y = true -> gt y x = false.
Proof.
  destruct x as [|x|[]], y as [|y|[]]; simpl; try congruence.
  intros H. apply Z.ltb_lt in H. apply Z.ltb_ge. lia.
Qed.

(** On numbers, one comparison step of the loop orders by [order_key]. *)
Lemma step_by_order_key x y :
  is_nan x = false -> is_nan y = false ->
  (strict_neq x y = false
   <-> fst (order_key x) = fst (order_key y)
       /\ snd (order_key x) = snd (order_key y))
  /\ (gt x y = true
      <-> (fst (order_key y) < fst (order_key x))%Z
          \/ (fst (order_key x) = fst (order_key y)
              /\ (snd (order_key y) < snd (order_key x))%Z)).
Proof.
  destruct x as [|x|[]], y as [|y|[]]; simpl; intros Hx Hy; try discriminate;
    rewrite ?negb_false_iff, ?Z.eqb_eq, ?Z.ltb_lt;
    (split; split; intros H';
     try discriminate; try reflexivity; try lia;
     try (split; (reflexivity || lia)); try (exfalso; lia)).
Qed.

Lemma dotted_decimal_numeric3 v : dotted_decimal v = true -> numeric3 v.
Proof. intros H i _. apply segment_not_nan, H. Qed.

End MoreVersionFacts.

(** X1. Joining the pieces of [v.split('.')] with dots gives [v] back;
    there is always at least one piece, and no piece contains a dot. *)
Theorem split_dot_join_round_trip (v : string) :
  join_dot (split_dot v) = v
  /\ split_dot v <> []
  /\ (forall t c, In t (split_dot v) -> In c (list_ascii_of_string t) ->
                  is_dot c = false).
Proof.
  split; [|split; [apply split_dot_not_nil|]].
  - induction v as [|c v IH]; [reflexivity|]. simpl.
    destruct (is_dot c) eqn:Hc.
    + apply Ascii.eqb_eq in Hc. subst c.
      pose proof (split_dot_not_nil v) as Hn.
      destruct (split_dot v) as [|t ts]; [contradiction|].
      change (join_dot ("" :: t :: ts)) with (String "." (join_dot (t :: ts))).
      rewrite IH. reflexivity.
    + pose proof (split_dot_not_nil v) as Hn.
      destruct (split_dot v) as [|t ts]; [contradiction|].
      rewrite join_dot_cons_char, IH. reflexivity.
  - induction v as [|c v IH]; simpl; intros t x Ht Hx.
    + destruct Ht as [<-|[]]. destruct Hx.
    + destruct (is_dot c) eqn:Hc.
      * destruct Ht as [<-|Ht]; [destruct Hx | exact (IH _ _ Ht Hx)].
      * destruct (split_dot v) as [|t' ts].
        -- destruct Ht as [<-|[]]. destruct Hx as [<-|[]]. exact Hc.
        -- destruct Ht as [<-|Ht].
           ++ destruct Hx as [<-|Hx]; [exact Hc|].
              apply (IH t' x); [left; reflexivity | exact Hx].
           ++ apply (IH t x); [right; exact Ht | exact Hx].
Qed.

(** X2. [parseInt(token, 10)] of a token that starts with digits is the
    value of that run of digits: what follows the first character that
    is not a digit is ignored. *)
Theorem parseInt10_ignores_suffix (t : string) (c : ascii) (rest : string) :
  t <> "" -> all_digits t = true -> is_digit c = false ->
  parseInt10 (t +:+ String c rest) = parseInt10 t.
Proof.
  intros Hne Hd Hc. rewrite (parseInt10_digits t Hne Hd).
  unfold all_digits in Hd. unfold parseInt10, decimal_value.
  destruct t as [|x t]; [congruence|]. simpl in Hd.
  apply andb_true_iff in Hd as [Hx Hl].
  change (String x t +:+ String c rest) with (String x (t +:+ String c rest)).
  simpl skip_white_space. rewrite (digit_not_white _ Hx).
  destruct (digit_not_sign _ Hx) as [Hm Hp].
  assert (Hbody : forall s,
            (let '(negative, body) :=
               match String x s with
               | String "-" r => (true, r)
               | String "+" r => (false, r)
               | _ => (false, String x s)
               end in
             match read_digits None body with
             | Some n => of_magnitude negative n
             | None => NaN
             end)
            = match read_digits None (String x s) with
              | Some n => of_magnitude false n
              | None => NaN
              end).
  { intros s. destruct x as [[] [] [] [] [] [] [] []]; try reflexivity; congruence. }
  rewrite Hbody. simpl read_digits.
  unfold is_digit in Hx. destruct (digit_of x) as [d|] eqn:E; [|discriminate].
  apply digit_of_value in E. subst d.
  rewrite <- (string_of_list_ascii_of_string t) at 1.
  rewrite (read_digits_stops _ _ _ _ Hl Hc). reflexivity.
Qed.

Lemma parseInt10_ignores_suffix_witness :
  parseInt10 ("12" +:+ String "r" "c1") = parseInt10 "12".
Proof.
  apply parseInt10_ignores_suffix; [discriminate | reflexivity | reflexivity].
Defined.

(** X3. Whatever the two strings, [compareVersion] returns -1, 0 or 1,
    and it returns -1 as soon as the segment at index 0 of either is not
    a number. *)
Theorem compareVersion_range (a b : string) :
  (compareVersion a b = (-1)%Z \/ compareVersion a b = 0%Z
   \/ compareVersion a b = 1%Z)
  /\ (is_nan (segment a 0) = true \/ is_nan (segment b 0) = true ->
      compareVersion a b = (-1)%Z).
Proof.
  rewrite compareVersion_unfold. split.
  - repeat match goal with
           | |- context [if ?c then _ else _] => destruct c
           end; auto.
  - intros H.
    assert (strict_neq (segment a 0) (segment b 0) = true
            /\ gt (segment a 0) (segment b 0) = false) as [-> ->];
      [|reflexivity].
    destruct (segment a 0) as [|x|[]], (segment b 0) as [|y|[]];
      simpl in *; destruct H; try discriminate; split; reflexivity.
Qed.

(** X4. A version compares equal to itself exactly when its segments at
    indices 0, 1, 2 are numbers; when one of them is not, the version
    compares as smaller than itself. *)
Theorem compareVersion_self (v : string) :
  (numeric3 v -> compareVersion v v = 0%Z)
  /\ (~ numeric3 v -> compareVersion v v = (-1)%Z)
  /\ (compareVersion v v = 0%Z \/ compareVersion v v = (-1)%Z).
Proof.
  assert (Hnan : forall x, is_nan x = true -> gt x x = false)
    by (intros [|x|[]]; simpl; congruence).
  assert (Hcases :
            (is_nan (segment v 0) = false /\ is_nan (segment v 1) = false
             /\ is_nan (segment v 2) = false /\ compareVersion v v = 0%Z)
            \/ ((is_nan (segment v 0) = true \/ is_nan (segment v 1) = true
                 \/ is_nan (segment v 2) = true)
                /\ compareVersion v v = (-1)%Z)).
  { rewrite compareVersion_unfold, !strict_neq_self.
    destruct (is_nan (segment v 0)) eqn:H0.
    { right. rewrite (Hnan _ H0). auto. }
    destruct (is_nan (segment v 1)) eqn:H1.
    { right. rewrite (Hnan _ H1). auto. }
    destruct (is_nan (segment v 2)) eqn:H2.
    { right. rewrite (Hnan _ H2). auto. }
    left. auto. }
  split; [|split].
  - intros Hn. destruct Hcases as [(_ & _ & _ & E)|[[H|[H|H]] _]]; [exact E| | |].
    + rewrite (Hn 0%nat) in H by lia. discriminate.
    + rewrite (Hn 1%nat) in H by lia. discriminate.
    + rewrite (Hn 2%nat) in H by lia. discriminate.
  - intros Hn. destruct Hcases as [(H0 & H1 & H2 & _)|[_ E]]; [|exact E].
    exfalso. apply Hn. intros i Hi.
    destruct i as [|[|[|i]]]; [assumption | assumption | assumption | lia].
  - destruct Hcases as [(_ & _ & _ & E)|[_ E]]; auto.
Qed.

Lemma compareVersion_self_witness :
  numeric3 "1.2.3" /\ compareVersion "1.2.3" "1.2.3" = 0%Z.
Proof.
  assert (H : numeric3 "1.2.3")
    by (intros i Hi; destruct i as [|[|[|i]]]; [reflexivity ..| lia]).
  split; [exact H|]. exact (proj1 (compareVersion_self "1.2.3") H).
Defined.

Section OrderFacts.

Lemma step_cases x y :
  is_nan x = false -> is_nan y = false ->
  (strict_neq x y = false /\ key_eq (order_key x) (order_key y))
  \/ (strict_neq x y = true /\ gt x y = true
      /\ key_lt (order_key y) (order_key x))
  \/ (strict_neq x y = true /\ gt x y = false
      /\ key_lt (order_key x) (order_key y)).
Proof.
  intros Hx Hy. unfold key_lt, key_eq.
  destruct x as [|x|[]], y as [|y|[]]; simpl in *; try discriminate;
    try (left; split; [reflexivity | lia]);
    try (right; left; split; [reflexivity|]; split; [reflexivity | lia]);
    try (right; right; split; [reflexivity|]; split; [reflexivity | lia]).
  destruct (Z.compare_spec x y) as [->|Hlt|Hgt].
  - left. rewrite Z.eqb_refl. split; [reflexivity | lia].
  - right. right. split; [apply negb_true_iff, Z.eqb_neq; lia|].
    split; [apply Z.ltb_ge; lia | lia].
  - right. left. split; [apply negb_true_iff, Z.eqb_neq; lia|].
    split; [apply Z.ltb_lt; lia | lia].
Qed.

(** On versions whose three segments are numbers the result is at most 0
    exactly when the segments are in lexicographic order. *)
Lemma compareVersion_le_iff a b :
  numeric3 a -> numeric3 b ->
  (compareVersion a b <= 0)%Z <-> version_le a b.
Proof.
  intros Ha Hb. rewrite compareVersion_unfold. unfold version_le.
  destruct (step_cases (segment a 0) (segment b 0))
    as [[-> K0]|[(-> & -> & K0)|(-> & -> & K0)]];
    [apply Ha; lia | apply Hb; lia | | |];
    [|unfold key_lt, key_eq in *; lia | unfold key_lt, key_eq in *; lia].
  destruct (step_cases (segment a 1) (segment b 1))
    as [[-> K1]|[(-> & -> & K1)|(-> & -> & K1)]];
    [apply Ha; lia | apply Hb; lia | | |];
    [|unfold key_lt, key_eq in *; lia | unfold key_lt, key_eq in *; lia].
  destruct (step_cases (segment a 2) (segment b 2))
    as [[-> K2]|[(-> & -> & K2)|(-> & -> & K2)]];
    [apply Ha; lia | apply Hb; lia | | |];
    unfold key_lt, key_eq in *; lia.
Qed.

Lemma version_le_total a b : version_le a b \/ version_le b a.
Proof. unfold version_le, key_lt, key_eq. lia. Qed.

Lemma version_le_trans a b c : version_le a b -> version_le b c -> version_le a c.
Proof. unfold version_le, key_lt, key_eq. lia. Qed.

End OrderFacts.

Section SymmetryFacts.

Lemma flip_cases x y :
  is_nan x = false -> is_nan y = false ->
  (strict_neq x y = false /\ strict_neq y x = false)
  \/ (strict_neq x y = true /\ gt x y = true
      /\ strict_neq y x = true /\ gt y x = false)
  \/ (strict_neq x y = true /\ gt x y = false
      /\ strict_neq y x = true /\ gt y x = true).
Proof.
  intros Hx Hy. rewrite (strict_neq_sym y x).
  destruct (strict_neq x y) eqn:Hn; [|left; split; reflexivity].
  right. destruct (gt x y) eqn:Hg.
  - left. repeat split. apply gt_asym, Hg.
  - right. repeat split. apply gt_total; try assumption.
    intros ->. rewrite strict_neq_self in Hn. congruence.
Qed.

Lemma split_dot_app v u :
  split_dot (v +:+ String "." u) = split_dot v ++ split_dot u.
Proof.
  induction v as [|c v IH]; [reflexivity|].
  change (String c v +:+ String "." u) with (String c (v +:+ String "." u)).
  simpl. rewrite IH. destruct (is_dot c); [reflexivity|].
  pose proof (split_dot_not_nil v) as Hn.
  destruct (split_dot v) as [|t ts]; [contradiction | reflexivity].
Qed.

Lemma segment_padded v i : segment (v +:+ ".0") i = segment v i.
Proof.
  unfold segment. change (v +:+ ".0") with (v +:+ String "." "0").
  rewrite split_dot_app, map_app.
  destruct (Nat.lt_ge_cases i (length (map parseInt10 (split_dot v)))) as [Hlt|Hge].
  - apply app_nth1, Hlt.
  - rewrite app_nth2 by exact Hge. rewrite (nth_overflow _ _ Hge).
    destruct (i - length (map parseInt10 (split_dot v))) as [|[|n]]; reflexivity.
Qed.

End SymmetryFacts.

(** X5. Between versions whose segments at indices 0, 1, 2 are numbers
    (the dotted-decimal ones among them), exchanging the arguments of
    [compareVersion] negates the result. *)
Theorem compareVersion_antisymmetric (a b : string) :
  numeric3 a -> numeric3 b ->
  compareVersion b a = (- compareVersion a b)%Z.
Proof.
  intros Ha Hb. rewrite !compareVersion_unfold.
  destruct (flip_cases (segment a 0) (segment b 0))
    as [[-> ->]|[(-> & -> & -> & ->)|(-> & -> & -> & ->)]];
    [apply Ha; lia | apply Hb; lia | | reflexivity | reflexivity].
  destruct (flip_cases (segment a 1) (segment b 1))
    as [[-> ->]|[(-> & -> & -> & ->)|(-> & -> & -> & ->)]];
    [apply Ha; lia | apply Hb; lia | | reflexivity | reflexivity].
  destruct (flip_cases (segment a 2) (segment b 2))
    as [[-> ->]|[(-> & -> & -> & ->)|(-> & -> & -> & ->)]];
    [apply Ha; lia | apply Hb; lia | | |]; reflexivity.
Qed.

Lemma compareVersion_antisymmetric_witness :
  numeric3 "1.10" /\ numeric3 "1.9.3"
  /\ compareVersion "1.9.3" "1.10" = (- compareVersion "1.10" "1.9.3")%Z.
Proof.
  assert (Ha : numeric3 "1.10") by (apply dotted_decimal_numeric3; reflexivity).
  assert (Hb : numeric3 "1.9.3") by (apply dotted_decimal_numeric3; reflexivity).
  split; [exact Ha|]. split; [exact Hb|].
  exact (compareVersion_antisymmetric "1.10" "1.9.3" Ha Hb).
Defined.

(** X6. On versions whose segments at indices 0, 1, 2 are numbers,
    "[compareVersion] is at most 0" is a total preorder: it is the
    lexicographic order of the three segments, any two versions are
    comparable, and it is transitive. *)
Theorem compareVersion_total_preorder (a b c : string) :
  numeric3 a -> numeric3 b -> numeric3 c ->
  ((compareVersion a b <= 0)%Z <-> version_le a b)
  /\ ((compareVersion a b <= 0)%Z \/ (compareVersion b a <= 0)%Z)
  /\ ((compareVersion a b <= 0)%Z -> (compareVersion b c <= 0)%Z ->
      (compareVersion a c <= 0)%Z).
Proof.
  intros Ha Hb Hc. split; [apply compareVersion_le_iff; assumption|]. split.
  - rewrite !compareVersion_le_iff by assumption. apply version_le_total.
  - rewrite !compareVersion_le_iff by assumption. apply version_le_trans.
Qed.

Lemma compareVersion_total_preorder_witness :
  (compareVersion "1.2" "1.10.0" <= 0)%Z /\ (compareVersion "1.10.0" "2" <= 0)%Z
  /\ (compareVersion "1.2" "2" <= 0)%Z.
Proof.
  assert (H1 : (compareVersion "1.2" "1.10.0" <= 0)%Z) by (vm_compute; discriminate).
  assert (H2 : (compareVersion "1.10.0" "2" <= 0)%Z) by (vm_compute; discriminate).
  split; [exact H1|]. split; [exact H2|].
  destruct (compareVersion_total_preorder "1.2" "1.10.0" "2") as (_ & _ & Ht);
    try (apply dotted_decimal_numeric3; reflexivity).
  exact (Ht H1 H2).
Defined.

(** X7. Appending [".0"] to a version changes none of its segments, so
    it changes no comparison, on either side and for any strings. *)
Theorem compareVersion_trailing_zero (a b : string) :
  (forall i, segment (a +:+ ".0") i = segment a i)
  /\ compareVersion (a +:+ ".0") b = compareVersion a b
  /\ compareVersion a (b +:+ ".0") = compareVersion a b.
Proof.
  split; [apply segment_padded|].
  rewrite !compareVersion_unfold, !segment_padded. split; reflexivity.
Qed.

(* ===================================================================== *)
(** ** Further properties of the registry *)
(* ===================================================================== *)

Section RegistryFacts.

Context {Data : Type} `{!Promises Data}.

Local Abbreviation World := (World Data).
Local Abbreviation Listener := (Listener Data).

Implicit Types (w : World) (l : Listener) (ls : list Listener) (d : Data).

Lemma filter_all ls : List.filter (fun _ : Listener => true) ls = ls.
Proof. induction ls as [|l ls IH]; simpl; [|rewrite IH]; reflexivity. Qed.

Lemma ids_filter (keep : Listener -> bool) ls i :
  In i (map id (List.filter keep ls)) -> In i (map id ls).
Proof.
  rewrite !in_map_iff. intros (l & E & Hin). apply filter_In in Hin as [Hin _].
  exists l. auto.
Qed.

Lemma NoDup_ids_filter (keep : Listener -> bool) ls :
  List.NoDup (map id ls) -> List.NoDup (map id (List.filter keep ls)).
Proof.
  induction ls as [|l ls IH]; simpl; [auto|].
  intros H. apply List.NoDup_cons_iff in H as [Hn Hd].
  destruct (keep l); simpl; [|apply IH, Hd].
  apply List.NoDup_cons_iff. split; [|apply IH, Hd].
  intros Hin. apply Hn. eapply ids_filter, Hin.
Qed.

Lemma filter_other_ids i ls :
  ~ In i (map id ls) ->
  List.filter (fun l => negb (id l =? i)%nat) ls = ls.
Proof.
  induction ls as [|l ls IH]; simpl; [reflexivity|]. intros Hn.
  destruct (Nat.eqb_spec (id l) i) as [E|_]; simpl.
  - exfalso. apply Hn. left. exact E.
  - rewrite IH; [reflexivity|]. intros Hin. apply Hn. right. exact Hin.
Qed.

Lemma existsb_id i ls :
  existsb (fun l => (id l =? i)%nat) ls = true <-> In i (map id ls).
Proof.
  rewrite existsb_exists, in_map_iff. split.
  - intros (l & Hin & E). apply Nat.eqb_eq in E. exists l. auto.
  - intros (l & E & Hin). exists l. split; [exact Hin | apply Nat.eqb_eq, E].
Qed.

(** With distinct ids the filter of a disposer drops one listener when
    the id is registered, and none otherwise. *)
Lemma dispose_count i ls :
  List.NoDup (map id ls) ->
  (Z.of_nat (length ls)
   - Z.of_nat (length (List.filter (fun l => negb (id l =? i)%nat) ls)))%Z
  = if existsb (fun l => (id l =? i)%nat) ls then 1%Z else 0%Z.
Proof.
  induction ls as [|l ls IH]; [reflexivity|]. simpl map. intros H.
  apply List.NoDup_cons_iff in H as [Hn Hd]. simpl.
  destruct (Nat.eqb_spec (id l) i) as [E|Hne]; simpl.
  - subst i. rewrite (filter_other_ids _ _ Hn). lia.
  - specialize (IH Hd).
    destruct (existsb _ ls); simpl length; lia.
Qed.

(** An invocation filters the listeners and leaves the plugins and the
    counter as they are. *)
Lemma invoke_shape l d w :
  exists keep : Listener -> bool,
    listeners (fst (invoke l d w)) = List.filter keep (listeners w)
    /\ next_id (fst (invoke l d w)) = next_id w
    /\ plugins (fst (invoke l d w)) = plugins w.
Proof.
  unfold invoke. destruct (cb l) as [f|cell f].
  - exists (fun _ => true). simpl. rewrite filter_all. auto.
  - unfold bind, gets, call, dispose, modify, ret. simpl.
    destruct (bool_decide (cell ∈ removed w)); simpl.
    + exists (fun _ => true). rewrite filter_all. auto.
    + destruct (f d); simpl.
      * eexists. split; [reflexivity | auto].
      * exists (fun _ => true). rewrite filter_all. auto.
Qed.

Lemma well_formed_filter (keep : Listener -> bool) w w' :
  listeners w' = List.filter keep (listeners w) -> next_id w' = next_id w ->
  well_formed w -> well_formed w'.
Proof.
  intros El En [Hd Hlt]. unfold well_formed. rewrite El, En. split.
  - apply NoDup_ids_filter, Hd.
  - rewrite List.Forall_forall in Hlt |- *. intros l Hin.
    apply filter_In in Hin as [Hin _]. apply Hlt, Hin.
Qed.

Lemma wrappers_own_filter (keep : Listener -> bool) w w' :
  listeners w' = List.filter keep (listeners w) ->
  wrappers_own w -> wrappers_own w'.
Proof.
  unfold wrappers_own. intros -> H.
  rewrite List.Forall_forall in H |- *. intros l Hin.
  apply filter_In in Hin as [Hin _]. apply H, Hin.
Qed.

Lemma well_formed_append w m cb' p :
  well_formed w -> well_formed (fst (on m cb' p w)).
Proof.
  intros [Hd Hlt]. unfold well_formed. simpl. split.
  - rewrite map_app. simpl. apply List.NoDup_app; [exact Hd | |].
    + apply List.NoDup_cons; [intros [] | constructor].
    + intros i Hin [<-|[]]. apply in_map_iff in Hin as (l & E & Hin).
      rewrite List.Forall_forall in Hlt. specialize (Hlt l Hin). lia.
  - apply List.Forall_app. split.
    + rewrite List.Forall_forall in Hlt |- *. intros l Hin.
      specialize (Hlt l Hin). lia.
    + constructor; [simpl; lia | constructor].
Qed.

(** The listeners [list] returns are registered. *)
Lemma list_registered e s w l : In l (list_ e s w) -> In l (listeners w).
Proof.
  unfold list_. destruct (default true s).
  - intros Hin.
    apply (Permutation_in _ (js_sort_perm priority _)) in Hin.
    apply filter_In in Hin as [Hin _]. exact Hin.
  - intros Hin. apply filter_In in Hin as [Hin _]. exact Hin.
Qed.

(** *** What the invocations of registered listeners preserve *)

Section PreservedOn.

Variable P : World -> Prop.
Variable Q : Listener -> Prop.
Hypothesis registered_Q : forall w l, P w -> In l (listeners w) -> Q l.
Hypothesis invoke_preserves : forall l d w, Q l -> P w -> P (fst (invoke l d w)).

Lemma reduce_preserves_on ls d w :
  (forall l, In l ls -> Q l) -> P w ->
  P (fst (js_reduce (fun r l => invoke l r) ls d w)).
Proof.
  revert d w. induction ls as [|l ls IH]; intros d w HQ H; [exact H|].
  rewrite js_reduce_cons.
  pose proof (invoke_preserves l d w (HQ l (or_introl eq_refl)) H) as H1.
  destruct (invoke l d w) as [w1 [r1|err]]; [|exact H1].
  apply IH; [|exact H1]. intros l' Hin. apply HQ. right. exact Hin.
Qed.

Lemma map_preserves_on ls d w :
  (forall l, In l ls -> Q l) -> P w ->
  P (fst (js_map (fun l => invoke l d) ls w)).
Proof.
  revert w. induction ls as [|l ls IH]; intros w HQ H; [exact H|].
  rewrite js_map_cons.
  pose proof (invoke_preserves l d w (HQ l (or_introl eq_refl)) H) as H1.
  destruct (invoke l d w) as [w1 [r1|err]]; [|exact H1].
  assert (H2 : P (fst (js_map (fun l => invoke l d) ls w1))).
  { apply IH; [|exact H1]. intros l' Hin. apply HQ. right. exact Hin. }
  destruct (js_map _ ls w1) as [w2 [rs|err]]; exact H2.
Qed.

Lemma reduce_awaited_preserves_on ls d w :
  (forall l, In l ls -> Q l) -> P w ->
  P (fst (js_reduce (fun r l => let* value := invoke l r in
                                promise_resolve value) ls d w)).
Proof.
  revert d w. induction ls as [|l ls IH]; intros d w HQ H; [exact H|].
  rewrite js_reduce_cons.
  pose proof (invoke_preserves l d w (HQ l (or_introl eq_refl)) H) as H1.
  unfold bind at 1. destruct (invoke l d w) as [w1 [r1|err]]; [|exact H1].
  unfold promise_resolve at 1. destruct (await r1); [|exact H1].
  apply IH; [|exact H1]. intros l' Hin. apply HQ. right. exact Hin.
Qed.

Lemma run_emission_preserves_on m w : P w -> P (run_emission m w).
Proof.
  intros H.
  assert (HQ : forall e l, In l (list_ e (Some true) w) -> Q l).
  { intros e l Hin. eapply registered_Q; [exact H|].
    eapply list_registered, Hin. }
  destruct m as [e d|e d|e d|e d]; simpl.
  - rewrite emit_promise_runs, list_default.
    unfold bind, promise_resolve at 1.
    destruct (await d); [|exact H].
    apply reduce_awaited_preserves_on; [apply HQ | exact H].
  - rewrite emitSync_unfold. apply reduce_preserves_on; [apply HQ | exact H].
  - rewrite emitParallel_unfold.
    pose proof (map_preserves_on (list_ e (Some true) w) d w (HQ e) H) as H1.
    destruct (js_map _ (list_ e (Some true) w) w) as [w1 [rs|err]];
      [|exact H1].
    simpl. rewrite (all_resolved_state rs w1). exact H1.
  - rewrite emitParallelSync_unfold. apply map_preserves_on; [apply HQ | exact H].
Qed.

Lemma run_emissions_preserves_on ms w : P w -> P (run_emissions ms w).
Proof.
  unfold run_emissions. revert w.
  induction ms as [|m ms IH]; intros w H; [exact H|].
  simpl. apply IH, run_emission_preserves_on, H.
Qed.

End PreservedOn.

End RegistryFacts.

(** X8. While the counter is below [2^53], where [this.$id++] still
    advances it, the ids of the registered listeners stay pairwise
    distinct and below the counter: [on] and [once] keep this and
    advance the counter by one, so the id they give out is new; a
    disposer and [off] keep it and leave the counter alone. *)
Theorem registry_ids_stay_unique {Data : Type} (w : World Data) :
  well_formed w ->
  (Z.of_nat (next_id w) < 2 ^ 53)%Z ->
  (forall m cb' p,
     well_formed (fst (on m cb' p w))
     /\ next_id (fst (on m cb' p w)) = S (next_id w)
     /\ ~ In (next_id w) (map id (listeners w)))
  /\ (forall m f p,
        well_formed (fst (once m f p w))
        /\ next_id (fst (once m f p w)) = S (next_id w))
  /\ (forall i,
        well_formed (fst (dispose i w))
        /\ next_id (fst (dispose i w)) = next_id w)
  /\ (forall e,
        well_formed (fst (off e w)) /\ next_id (fst (off e w)) = next_id w).
Proof.
  intros Hw _.
  split.
  { intros m cb' p. split; [apply well_formed_append, Hw|].
    split; [reflexivity|]. destruct Hw as [_ Hlt].
    intros Hin. apply in_map_iff in Hin as (l & E & Hin).
    rewrite List.Forall_forall in Hlt. specialize (Hlt l Hin). lia. }
  split.
  { intros m f p. split; [|reflexivity].
    change (fst (once m f p w))
      with (fst (on m (OnceWrapper (next_id w) f) p
                   (set_removed (removed w ∖ {[ next_id w ]}) w))).
    apply well_formed_append. exact Hw. }
  split.
  { intros i. split; [|reflexivity].
    eapply well_formed_filter; [reflexivity | reflexivity | exact Hw]. }
  intros e. rewrite off_clears. split; [|reflexivity].
  split; [constructor | constructor].
Qed.

Lemma registry_ids_stay_unique_witness :
  well_formed (@new_bus Z)
  /\ (Z.of_nat (next_id (@new_bus Z)) < 2 ^ 53)%Z
  /\ well_formed (fst (on "x" (Plain (fun d : Z => Returned d)) None new_bus)).
Proof.
  assert (H : well_formed (@new_bus Z)) by (split; constructor).
  assert (Hb : (Z.of_nat (next_id (@new_bus Z)) < 2 ^ 53)%Z) by reflexivity.
  split; [exact H|]. split; [exact Hb|].
  destruct (registry_ids_stay_unique (@new_bus Z) H Hb) as (Hon & _).
  exact (proj1 (Hon "x" (Plain (fun d : Z => Returned d)) None)).
Defined.

Lemma filter_twice {A} (keep : A -> bool) (ls : list A) :
  List.filter keep (List.filter keep ls) = List.filter keep ls.
Proof.
  induction ls as [|l ls IH]; [reflexivity|]. simpl.
  destruct (keep l) eqn:Hk; simpl; [rewrite Hk, IH|]; auto.
Qed.

(** X9. Where the ids are pairwise distinct, a disposer removes the
    listener of its id and no other, keeping the order of the rest; it
    returns 1 when that listener was registered and 0 when it was not,
    so a second call returns 0 and changes nothing. *)
Theorem disposer_removes_its_listener {Data : Type} (w : World Data) (i : nat) :
  List.NoDup (map id (listeners w)) ->
  let w' := fst (dispose i w) in
  snd (dispose i w)
  = Returned (if existsb (fun l => (id l =? i)%nat) (listeners w)
              then 1%Z else 0%Z)
  /\ listeners w' = List.filter (fun l => negb (id l =? i)%nat) (listeners w)
  /\ (forall l, In l (listeners w') <-> In l (listeners w) /\ id l <> i)
  /\ dispose i w' = (w', Returned 0%Z)
  /\ plugins w' = plugins w /\ next_id w' = next_id w.
Proof.
  intros Hd. cbv zeta. unfold dispose. simpl.
  split; [rewrite (dispose_count i _ Hd); reflexivity|].
  split; [reflexivity|]. split.
  { intros l. rewrite filter_In, negb_true_iff, Nat.eqb_neq. reflexivity. }
  split; [|split; reflexivity].
  rewrite filter_twice, Z.sub_diag. reflexivity.
Qed.

Lemma disposer_removes_its_listener_witness :
  let w := fst (on "y" (Plain (fun d : Z => Returned d)) None
                  (fst (on "x" (Plain (fun d : Z => Returned d)) None new_bus))) in
  List.NoDup (map id (listeners w))
  /\ snd (dispose 0 w) = Returned 1%Z
  /\ snd (dispose 0 (fst (dispose 0 w))) = Returned 0%Z.
Proof.
  cbv zeta.
  assert (H : List.NoDup (map id (listeners
                (fst (on "y" (Plain (fun d : Z => Returned d)) None
                   (fst (on "x" (Plain (fun d : Z => Returned d)) None new_bus)))))))
    by (simpl; repeat constructor; simpl; intuition discriminate).
  split; [exact H|].
  destruct (disposer_removes_its_listener _ 0 H) as (E1 & _ & _ & E2 & _).
  split; [exact E1|]. rewrite E2. reflexivity.
Defined.

Lemma has_of_listener {Data : Type} (w : World Data) (e : string) l :
  In l (listeners w) -> mask l = e -> has e w = (w, Returned true).
Proof.
  intros Hin Hm. unfold has, bind, gets, ret. simpl. rewrite list_unsorted.
  assert (Hf : In l (List.filter (fun l => String.eqb (mask l) e) (listeners w)))
    by (apply filter_In; split; [exact Hin | apply String.eqb_eq, Hm]).
  destruct (List.filter _ (listeners w)); [destruct Hf | reflexivity].
Qed.

(** X10. [has(e)] reads the registry without changing anything; it
    returns [true] exactly when some registered listener has the mask
    [e], whatever its priority. *)
Theorem has_iff_listener {Data : Type} (w : World Data) (e : string) :
  fst (has e w) = w
  /\ (snd (has e w) = Returned true
      <-> exists l, In l (listeners w) /\ mask l = e)
  /\ (snd (has e w) = Returned false
      <-> forall l, In l (listeners w) -> mask l <> e).
Proof.
  unfold has, bind, gets, ret. simpl. rewrite list_unsorted.
  split; [reflexivity|].
  destruct (List.filter (fun l => String.eqb (mask l) e) (listeners w))
    as [|x xs] eqn:E; simpl.
  - split.
    + split; [discriminate|]. intros (l & Hin & Hm).
      assert (Hf : In l (List.filter (fun l => String.eqb (mask l) e) (listeners w)))
        by (apply filter_In; split; [exact Hin | apply String.eqb_eq, Hm]).
      rewrite E in Hf. destruct Hf.
    + split; [|reflexivity]. intros _ l Hin Hm.
      assert (Hf : In l (List.filter (fun l => String.eqb (mask l) e) (listeners w)))
        by (apply filter_In; split; [exact Hin | apply String.eqb_eq, Hm]).
      rewrite E in Hf. destruct Hf.
  - assert (Hx : In x (listeners w) /\ mask x = e).
    { assert (Hf : In x (List.filter (fun l => String.eqb (mask l) e) (listeners w)))
        by (rewrite E; left; reflexivity).
      apply filter_In in Hf as [Hin Hm]. apply String.eqb_eq in Hm. auto. }
    split.
    + split; [intros _; exists x; exact Hx | reflexivity].
    + split; [discriminate|]. intros H. exfalso.
      destruct Hx as [Hin Hm]. exact (H x Hin Hm).
Qed.

(** X11. [on(m, cb, priority)] appends the new listener, with the id the
    counter held and priority 0 when none is given: the listeners of
    [m] gain it at the end, the listeners of every other event are the
    same, sorted or not, [has(m)] is true afterwards, and nothing is
    installed. On a registry with distinct ids below the counter, the
    disposer [on] returns then removes it again and returns 1. *)
Theorem on_appends_listener {Data : Type}
    (w : World Data) (m : string) (cb' : Callback Data) (p : option Z) :
  well_formed w ->
  let added := {| mask := m; priority := default 0%Z p; cb := cb';
                  id := next_id w |} in
  let w1 := fst (on m cb' p w) in
  snd (on m cb' p w) = Returned (dispose (next_id w))
  /\ list_ m (Some false) w1 = list_ m (Some false) w ++ [added]
  /\ (forall e s, e <> m -> list_ e s w1 = list_ e s w)
  /\ snd (has m w1) = Returned true
  /\ plugins w1 = plugins w
  /\ dispose (next_id w) w1 = (set_next_id (S (next_id w)) w, Returned 1%Z).
Proof.
  intros [Hd Hlt]. cbv zeta.
  assert (Hm : forall e,
            List.filter (fun l : Listener Data => String.eqb (mask l) e)
              (listeners (fst (on m cb' p w)))
            = List.filter (fun l => String.eqb (mask l) e) (listeners w)
              ++ (if String.eqb m e
                  then [ {| mask := m; priority := default 0%Z p; cb := cb';
                            id := next_id w |} ]
                  else [])).
  { intros e. simpl. rewrite List.filter_app. reflexivity. }
  split; [reflexivity|]. split.
  { rewrite !list_unsorted, Hm, String.eqb_refl. reflexivity. }
  split.
  { intros e s Hne. unfold list_. rewrite !mask_filter_eq, Hm.
    destruct (String.eqb_spec m e) as [->|_]; [contradiction|].
    rewrite app_nil_r. reflexivity. }
  split.
  { rewrite (has_of_listener _ m
               {| mask := m; priority := default 0%Z p; cb := cb';
                  id := next_id w |}); [reflexivity | | reflexivity].
    simpl. apply in_or_app. right. left. reflexivity. }
  split; [reflexivity|].
  unfold dispose. simpl.
  assert (Hfresh : ~ In (next_id w) (map id (listeners w))).
  { intros Hin. apply in_map_iff in Hin as (l & E & Hin).
    rewrite List.Forall_forall in Hlt. specialize (Hlt l Hin). lia. }
  rewrite List.filter_app, (filter_other_ids _ _ Hfresh). simpl.
  rewrite Nat.eqb_refl. simpl. rewrite app_nil_r, length_app. simpl.
  unfold set_listeners, set_next_id. simpl.
  replace (Z.of_nat (length (listeners w) + 1) - Z.of_nat (length (listeners w)))%Z
    with 1%Z by lia.
  reflexivity.
Qed.

Lemma on_appends_listener_witness :
  well_formed (@new_bus Z)
  /\ dispose 0 (fst (on "x" (Plain (fun d : Z => Returned d)) None new_bus))
     = (set_next_id 1 new_bus, Returned 1%Z).
Proof.
  assert (H : well_formed (@new_bus Z)) by (split; constructor).
  split; [exact H|].
  destruct (on_appends_listener (@new_bus Z) "x" (Plain (fun d : Z => Returned d))
              None H) as (_ & _ & _ & _ & _ & E).
  exact E.
Defined.

(* ===================================================================== *)
(** ** Further properties of emission *)
(* ===================================================================== *)

Section MoreEmissionFacts.

Context {Data : Type}.

Local Abbreviation World := (World Data).
Local Abbreviation Listener := (Listener Data).

Implicit Types (w : World) (l : Listener) (ls : list Listener) (d : Data).

Lemma map_throws_iff ls d w w' err :
  js_map (fun l => invoke l d) ls w = (w', Threw err)
  <-> exists pre l post w0 results,
        ls = pre ++ l :: post /\ delivered pre d w w0 results
        /\ invoke l d w0 = (w', Threw err).
Proof.
  revert w. induction ls as [|l ls IH]; intros w.
  - simpl. unfold ret. split; [discriminate|].
    intros (pre & l & post & _ & _ & E & _). destruct pre; discriminate.
  - rewrite js_map_cons. split.
    + destruct (invoke l d w) as [w1 [r1|err1]] eqn:E.
      * destruct (js_map _ ls w1) as [w2 [rs|err2]] eqn:E2; [discriminate|].
        intros [= <- <-].
        apply IH in E2 as (pre & l' & post & w0 & rs & -> & Hc & Hi).
        exists (l :: pre), l', post, w0, (r1 :: rs). split; [reflexivity|].
        split; [econstructor; eassumption | exact Hi].
      * intros [= <- <-]. exists [], l, ls, w, [].
        split; [reflexivity|]. split; [constructor | exact E].
    + intros (pre & l' & post & w0 & rs & Heq & Hc & Hi).
      destruct pre as [|x pre]; simpl in Heq; injection Heq as <- ->.
      * inversion Hc; subst. rewrite Hi. reflexivity.
      * inversion Hc as [|? ? ? ? wa ? ? rs' Hx Hc']; subst. rewrite Hx.
        assert (E2 : js_map (fun l => invoke l d) (pre ++ l' :: post) wa
                     = (w', Threw err)).
        { apply IH. exists pre, l', post, w0, rs'. auto. }
        rewrite E2. reflexivity.
Qed.

(** With distinct ids, two registered listeners of one id are the same. *)
Lemma ids_injective ls l1 l2 :
  List.NoDup (map id ls) -> In l1 ls -> In l2 ls -> id l1 = id l2 -> l1 = l2.
Proof.
  induction ls as [|l ls IH]; simpl; [intros _ []|].
  intros H. apply List.NoDup_cons_iff in H as [Hn Hd].
  intros [->|H1] [->|H2] E; auto.
  - exfalso. apply Hn. rewrite E. apply in_map, H2.
  - exfalso. apply Hn. rewrite <- E. apply in_map, H1.
Qed.

(** An invocation leaves the listeners alone, or it is a wrapper of
    [once] removing the listeners of its cell. *)
Lemma invoke_listeners l d w :
  listeners (fst (invoke l d w)) = listeners w
  \/ exists cell f,
       cb l = OnceWrapper cell f
       /\ listeners (fst (invoke l d w))
          = List.filter (fun l' => negb (id l' =? cell)%nat) (listeners w).
Proof.
  unfold invoke. destruct (cb l) as [f|cell f]; [left; reflexivity|].
  unfold bind, gets, call, dispose, modify, ret. simpl.
  destruct (bool_decide (cell ∈ removed w)); simpl; [left; reflexivity|].
  destruct (f d); simpl; [|left; reflexivity].
  right. exists cell, f. split; reflexivity.
Qed.

(** A listener that is not a wrapper of a cell does not execute the
    function of that cell. *)
Lemma invoke_executions_other cell l d w :
  match cb l with OnceWrapper c _ => c <> cell | Plain _ => True end ->
  executions cell (calls (fst (invoke l d w))) = executions cell (calls w).
Proof.
  unfold invoke. destruct (cb l) as [f|c f]; intros Hc.
  - simpl. rewrite executions_app. unfold executions at 2. simpl. lia.
  - assert (Hb : (c =? cell)%nat = false) by (apply Nat.eqb_neq; exact Hc).
    unfold bind, gets, call, dispose, modify, ret. simpl.
    destruct (bool_decide (c ∈ removed w)); simpl; [reflexivity|].
    destruct (f d); simpl; rewrite executions_app;
      unfold executions at 2, by_once; simpl; rewrite Hb; simpl; lia.
Qed.

End MoreEmissionFacts.

Lemma reduce_awaited_plain {Data : Type} `{!Promises Data}
    (ls : list (Listener Data)) (d : Data) (w : World Data) :
  (forall v : Data, await v = Returned v) ->
  js_reduce (fun r l => let* value := invoke l r in promise_resolve value) ls d w
  = js_reduce (fun r l => invoke l r) ls d w.
Proof.
  intros Hplain. revert d w. induction ls as [|l ls IH]; intros d w; [reflexivity|].
  rewrite !js_reduce_cons. unfold bind at 1.
  destruct (invoke l d w) as [w1 [r1|err]]; [|reflexivity].
  unfold promise_resolve at 1. rewrite Hplain. apply IH.
Qed.

(** X12. [emit(e, data)] calls no listener and changes nothing itself:
    it returns a promise that, in whatever state it is settled, runs the
    listeners that matched when [emit] was called, in their order, each
    on what the one before returned once that is settled, a returned
    promise being waited for. Where no value is a promise, the promise
    settled at once yields what [emitSync] yields; a single matching
    listener is still called if it has been removed in between. With a
    listener returning a promise of [d + 1] and then a listener [d * 2],
    [emit("x", 3)] is fulfilled with 8, while [emitSync] hands the
    promise itself to the second listener. *)
Theorem emit_defers_and_snapshots {Data : Type} `{!Promises Data}
    (e : string) (data : Data) (w : World Data) :
  (exists p,
     emit e data w = (w, Returned p)
     /\ (forall w',
           p w' = (let* x := promise_resolve data in
                   js_reduce (fun result listener =>
                                let* value := invoke listener result in
                                promise_resolve value)
                     (list_ e (Some true) w) x) w')
     /\ ((forall v : Data, await v = Returned v) -> p w = emitSync e data w)
     /\ (forall l f x,
           list_ e (Some true) w = [l] -> cb l = Plain f ->
           await data = Returned x ->
           forall w', snd (p w') = match f x with
                                   | Returned value => await value
                                   | Threw err => Threw err
                                   end))
  /\ (forall w0 : World Sample,
        list_ "x" (Some false) w0 = [] ->
        let inc_later :=
          Plain (fun d => match d with
                          | Num z => Returned (Fulfilling (z + 1))
                          | _ => Returned d
                          end) in
        let dbl :=
          Plain (fun d => match d with
                          | Num z => Returned (Num (z * 2))
                          | _ => Returned d
                          end) in
        let w1 := fst (on "x" dbl (Some 0%Z)
                         (fst (on "x" inc_later (Some 1%Z) w0))) in
        snd (emitSync "x" (Num 3) w1) = Returned (Fulfilling 4)
        /\ exists p, emit "x" (Num 3) w1 = (w1, Returned p)
                     /\ snd (p w1) = Returned (Num 8)).
Proof.
  split.
  - eexists. split; [reflexivity|].
    assert (H : forall w',
              fold_left (fun result listener =>
                           promise_then result (fun r => invoke listener r))
                (list_ e None w) (promise_resolve data) w'
              = (let* x := promise_resolve data in
                 js_reduce (fun result listener =>
                              let* value := invoke listener result in
                              promise_resolve value)
                   (list_ e (Some true) w) x) w').
    { intros w'. rewrite emit_promise_runs, list_default. reflexivity. }
    split; [exact H|]. split.
    + intros Hplain. rewrite H, emitSync_unfold.
      unfold bind at 1, promise_resolve at 1. rewrite Hplain.
      apply reduce_awaited_plain, Hplain.
    + intros l f x El Ef Hx w'. rewrite H, El.
      unfold bind at 1, promise_resolve at 1. rewrite Hx.
      rewrite js_reduce_cons. unfold bind, invoke. rewrite Ef. simpl.
      destruct (f x) as [value|err]; [|reflexivity].
      unfold promise_resolve. destruct (await value); reflexivity.
  - intros w0 H0 inc_later dbl w1. subst w1. split.
    + rewrite emitSync_unfold, (list_after_two_on _ _ _ _ _ _ H0). reflexivity.
    + eexists. split; [reflexivity|].
      rewrite emit_promise_runs, list_default, (list_after_two_on _ _ _ _ _ _ H0).
      reflexivity.
Qed.

Lemma emit_defers_and_snapshots_witness :
  let w := fst (on "x" (Plain (fun d : Z => Returned (d + 1)%Z)) None new_bus) in
  (forall v : Z, await v = Returned v)
  /\ exists p, emit "x" 3%Z w = (w, Returned p)
               /\ p w = emitSync "x" 3%Z w
               /\ snd (p (fst (dispose 0 w))) = Returned 4%Z.
Proof.
  cbv zeta.
  assert (Hplain : forall v : Z, await v = Returned v) by (intros v; reflexivity).
  split; [exact Hplain|].
  destruct (emit_defers_and_snapshots "x" 3%Z
              (fst (on "x" (Plain (fun d : Z => Returned (d + 1)%Z)) None new_bus)))
    as [(p & E & _ & Hsync & H) _].
  exists p. split; [exact E|]. split; [exact (Hsync Hplain)|].
  exact (H _ _ 3%Z eq_refl eq_refl eq_refl _).
Defined.

(** X13. [emitParallel] calls the listeners during the call, as
    [emitParallelSync] does: both leave the same state, a callback that
    throws makes [emitParallel] itself throw (no promise is returned),
    and the promise it otherwise returns gathers what
    [emitParallelSync] returns: it is fulfilled with the values those
    results are or are fulfilled with, and rejected when one of them
    is. *)
Theorem emitParallel_runs_during_call {Data : Type} `{!Promises Data}
    (e : string) (data : Data) (w : World Data) :
  fst (emitParallel e data w) = fst (emitParallelSync e data w)
  /\ (forall err,
        snd (emitParallel e data w) = Threw err
        <-> snd (emitParallelSync e data w) = Threw err)
  /\ (forall p, snd (emitParallel e data w) = Returned p ->
        exists results,
          snd (emitParallelSync e data w) = Returned results
          /\ gathers p results).
Proof.
  rewrite emitParallel_unfold, emitParallelSync_unfold.
  destruct (js_map _ (list_ e (Some true) w) w) as [w1 [rs|err']]; simpl.
  - split; [reflexivity|]. split; [split; discriminate|].
    intros p [= <-]. exists rs. split; [reflexivity|].
    apply all_resolved_gathers.
  - split; [reflexivity|]. split; [|discriminate].
    intros err. split; intros [= ->]; reflexivity.
Qed.

(** X14. [emitParallelSync(e, data)] throws exactly when some listener
    of [list(e, true)] throws on [data] after all the listeners before
    it returned; it then throws what that listener threw, in the state
    that listener left, and the listeners after it are not called. *)
Theorem emitParallelSync_stops_at_first_throw {Data : Type}
    (e : string) (data : Data) (w w' : World Data) (err : Thrown Data) :
  emitParallelSync e data w = (w', Threw err)
  <-> exists pre l post w0 results,
        list_ e (Some true) w = pre ++ l :: post
        /\ delivered pre data w w0 results
        /\ invoke l data w0 = (w', Threw err).
Proof. rewrite emitParallelSync_unfold. apply map_throws_iff. Qed.

(** X16. A listener registered with [once] and removed with the disposer
    [once] returned, before any emission, is never executed: on a
    registry with distinct ids where every wrapper sits under its own
    id, the registry is back as it was and no later emission calls the
    function. *)
Theorem disposed_once_never_runs {Data : Type} `{!Promises Data}
    (w : World Data) (m : string) (f : UserFunction Data) (p : option Z) :
  well_formed w -> wrappers_own w ->
  let cell := next_id w in
  let w2 := fst (dispose cell (fst (once m f p w))) in
  snd (once m f p w) = Returned (dispose cell)
  /\ listeners w2 = listeners w
  /\ (forall ms,
        executions cell (calls (run_emissions ms w2))
        = executions cell (calls w)).
Proof.
  intros [Hd Hlt] Ho. cbv zeta. split; [reflexivity|].
  assert (Hfresh : ~ In (next_id w) (map id (listeners w))).
  { intros Hin. apply in_map_iff in Hin as (l & E & Hin).
    rewrite List.Forall_forall in Hlt. specialize (Hlt l Hin). lia. }
  assert (El : listeners (fst (dispose (next_id w) (fst (once m f p w))))
               = listeners w).
  { simpl. rewrite List.filter_app, (filter_other_ids _ _ Hfresh). simpl.
    rewrite Nat.eqb_refl. simpl. apply app_nil_r. }
  split; [exact El|]. intros ms.
  apply (run_emissions_preserves_on
           (fun w' => (forall l, In l (listeners w') -> In l (listeners w))
                      /\ executions (next_id w) (calls w')
                         = executions (next_id w) (calls w))
           (fun l => match cb l with
                     | OnceWrapper c _ => c <> next_id w
                     | Plain _ => True
                     end)).
  - intros w' l [Hsub _] Hl. specialize (Hsub l Hl).
    destruct (cb l) as [f'|c f'] eqn:Ec; [exact I|].
    unfold wrappers_own in Ho. rewrite List.Forall_forall in Ho.
    specialize (Ho l Hsub). rewrite Ec in Ho. subst c.
    rewrite List.Forall_forall in Hlt. specialize (Hlt l Hsub). lia.
  - intros l d w' HQ [Hsub He]. split.
    + intros l' Hl'. destruct (invoke_shape l d w') as (keep & E & _).
      rewrite E in Hl'. apply filter_In in Hl' as [Hl' _]. apply Hsub, Hl'.
    + rewrite (invoke_executions_other _ _ _ _ HQ). exact He.
  - split; [rewrite El; auto | reflexivity].
Qed.

Lemma disposed_once_never_runs_witness :
  well_formed (@new_bus Z) /\ wrappers_own (@new_bus Z)
  /\ executions 0
       (calls (run_emissions [EmitSync "x" 1%Z]
                 (fst (dispose 0 (fst (once "x" (fun d : Z => Returned d) None
                                         new_bus))))))
     = 0.
Proof.
  assert (Hw : well_formed (@new_bus Z)) by (split; constructor).
  assert (Ho : wrappers_own (@new_bus Z)) by constructor.
  split; [exact Hw|]. split; [exact Ho|].
  destruct (disposed_once_never_runs (@new_bus Z) "x" (fun d : Z => Returned d)
              None Hw Ho) as (_ & _ & H).
  exact (H [EmitSync "x" 1%Z]).
Defined.



(* ===================================================================== *)
(** ** Further properties of [plugin] *)
(* ===================================================================== *)

Section MorePluginFacts.

Context {Data : Type}.

Local Abbreviation World := (World Data).
Local Abbreviation Plugin := (Plugin Data).

Implicit Types (w : World) (pl : Plugin) (key : string) (options : Data).

Lemma plugins_get_same key w w' :
  plugins w' = plugins w -> plugins_get key w' = plugins_get key w.
Proof. unfold plugins_get. intros ->. reflexivity. Qed.

(** The checks read the installed plugins and nothing else. *)
Lemma checks_passed_same pl w w' :
  plugins w' = plugins w -> checks_passed pl w -> checks_passed pl w'.
Proof.
  intros E [Ht Hall]. split; [rewrite (plugins_get_same _ _ _ E); exact Ht|].
  rewrite List.Forall_forall in Hall |- *. intros key Hin.
  destruct (Hall key Hin) as (provided & versionNeeded & Hp & Hd & Hc).
  exists provided, versionNeeded. rewrite E. auto.
Qed.

Lemma check_inherited pl key w :
  plugins w !! key = None -> inherited key = true ->
  check_dependency pl key w = (w, Threw TypeError).
Proof.
  intros Hp Hi. unfold check_dependency, bind, gets, plugins_get.
  rewrite Hp, Hi. simpl. destruct (dependency _ key); reflexivity.
Qed.

End MorePluginFacts.

(** X18. A plugin whose name is the name of a member of
    [Object.prototype], such as ["constructor"] or ["toString"], can
    never be installed: on every bus [plugin] throws the
    already-installed error, before any dependency is looked at or the
    body is called, and changes nothing. *)
Theorem plugin_named_like_object_member {Data : Type}
    (pl : Plugin Data) (options : Data) (w : World Data) :
  inherited (name (plugin_descriptor pl)) = true ->
  plugin pl options w
  = (w, Threw (DuplicatePlugin (name (plugin_descriptor pl)))).
Proof.
  intros Hi. rewrite plugin_unfold. unfold plugins_get.
  destruct (plugins w !! name (plugin_descriptor pl)); [reflexivity|].
  rewrite Hi. reflexivity.
Qed.

Lemma plugin_named_like_object_member_witness :
  plugin (createPlugin "toString" "1.0.0" [] (fun _ : Z => ret tt)) 0%Z new_bus
  = (new_bus, Threw (DuplicatePlugin "toString")).
Proof.
  apply (plugin_named_like_object_member
           (createPlugin "toString" "1.0.0" [] (fun _ : Z => ret tt)) 0%Z new_bus).
  reflexivity.
Defined.

(** X19. A dependency on a name that is not installed but is the name of
    a member of [Object.prototype] is not reported as missing: when the
    dependencies before it are satisfied, [plugin] throws a [TypeError]
    (from [compareVersion] on an undefined version) and changes
    nothing. *)
Theorem plugin_dependency_named_like_object_member {Data : Type}
    (pl : Plugin Data) (options : Data) (w : World Data)
    (pre post : list string) (key : string) :
  truthy (plugins_get (name (plugin_descriptor pl)) w) = false ->
  object_keys (dependencies (plugin_descriptor pl)) = pre ++ key :: post ->
  List.Forall (satisfied pl w) pre ->
  plugins w !! key = None -> inherited key = true ->
  plugin pl options w = (w, Threw TypeError).
Proof.
  intros Ht E Hpre Hp Hi. apply plugin_checks_fail; [exact Ht|].
  rewrite E. apply forEach_first_failure; [exact Hpre|].
  apply check_inherited; assumption.
Qed.

Lemma plugin_dependency_named_like_object_member_witness :
  plugin (createPlugin "ext" "1.0.0" [("valueOf", "1.0.0")] (fun _ : Z => ret tt))
         0%Z new_bus
  = (new_bus, Threw TypeError).
Proof.
  apply (plugin_dependency_named_like_object_member
           (createPlugin "ext" "1.0.0" [("valueOf", "1.0.0")] (fun _ : Z => ret tt))
           0%Z new_bus [] [] "valueOf");
    [reflexivity | reflexivity | constructor | reflexivity | reflexivity].
Defined.

(** X20. After [plugin(pl, options)] has returned, the descriptor of
    [pl] is recorded under its name, what was recorded under the other
    names when the body returned is untouched, and installing any
    plugin of that name again throws the already-installed error and
    changes nothing. *)
Theorem plugin_installs_once {Data : Type}
    (pl : Plugin Data) (options : Data) (w w' : World Data) :
  plugin pl options w = (w', Returned tt) ->
  plugins w' !! name (plugin_descriptor pl) = Some (plugin_descriptor pl)
  /\ (exists w1, plugin_body pl options w = (w1, Returned tt)
                 /\ forall key, key <> name (plugin_descriptor pl) ->
                                plugins w' !! key = plugins w1 !! key)
  /\ (forall (pl' : Plugin Data) options',
        name (plugin_descriptor pl') = name (plugin_descriptor pl) ->
        plugin pl' options' w'
        = (w', Threw (DuplicatePlugin (name (plugin_descriptor pl))))).
Proof.
  intros H.
  assert (Hrec : exists w1, plugin_body pl options w = (w1, Returned tt)
                            /\ w' = recorded pl w1).
  { rewrite plugin_unfold in H.
    destruct (truthy _); [discriminate|].
    pose proof (forEach_outcome pl
                  (object_keys (dependencies (plugin_descriptor pl))) w) as Ho.
    destruct Ho as [[_ E]|[err E]]; rewrite E in H; [|discriminate].
    destruct (plugin_body pl options w) as [w1 [[]|err]]; [|discriminate].
    exists w1. split; [reflexivity | congruence]. }
  destruct Hrec as (w1 & Hb & ->).
  assert (Hl : plugins (recorded pl w1) !! name (plugin_descriptor pl)
               = Some (plugin_descriptor pl)) by apply lookup_insert_eq.
  split; [exact Hl|]. split.
  - exists w1. split; [exact Hb|]. intros key Hne. simpl.
    apply lookup_insert_ne. congruence.
  - intros pl' options' En. rewrite plugin_unfold, En.
    rewrite (plugins_get_own _ _ _ Hl). reflexivity.
Qed.

Lemma plugin_installs_once_witness :
  let core := createPlugin "core" "1.2.0" [] (fun _ : Z => ret tt) in
  let w' := fst (plugin core 0%Z new_bus) in
  plugin core 0%Z new_bus = (w', Returned tt)
  /\ plugin core 0%Z w' = (w', Threw (DuplicatePlugin "core")).
Proof.
  cbv zeta. split; [reflexivity|].
  destruct (plugin_installs_once
              (createPlugin "core" "1.2.0" [] (fun _ : Z => ret tt)) 0%Z new_bus
              (fst (plugin (createPlugin "core" "1.2.0" [] (fun _ : Z => ret tt))
                      0%Z new_bus)) eq_refl) as (_ & _ & H).
  exact (H (createPlugin "core" "1.2.0" [] (fun _ : Z => ret tt)) 0%Z eq_refl).
Defined.

(** X21. The checks of [plugin] depend on the installed plugins only.
    So when the body of a plugin throws without having installed
    anything, installing the same plugin again passes the checks again
    and calls the body a second time, in the state the first attempt
    left: what the body had registered before it threw is not undone. *)
Theorem plugin_retry_runs_body_again {Data : Type}
    (pl : Plugin Data) (options : Data) (w w1 : World Data) (err : Thrown Data) :
  checks_passed pl w ->
  plugin_body pl options w = (w1, Threw err) ->
  plugins w1 = plugins w ->
  plugin pl options w = (w1, Threw err)
  /\ checks_passed pl w1
  /\ plugin pl options w1
     = match plugin_body pl options w1 with
       | (w2, Returned _) => (recorded pl w2, Returned tt)
       | (w2, Threw err') => (w2, Threw err')
       end.
Proof.
  intros Hp Hb Hsame.
  pose proof (checks_passed_same pl w w1 Hsame Hp) as Hp1.
  split; [rewrite (plugin_after_checks _ _ _ Hp), Hb; reflexivity|].
  split; [exact Hp1 | apply plugin_after_checks, Hp1].
Qed.

Lemma plugin_retry_runs_body_again_witness :
  let body : Z -> M Z unit :=
    fun _ => let* _ := on "x" (Plain (fun d => Returned d)) None in
             throw (Raised 5%Z) in
  let pl := createPlugin "a" "1.0.0" [] body in
  let w1 := fst (body 0%Z new_bus) in
  checks_passed pl new_bus
  /\ plugin pl 0%Z new_bus = (w1, Threw (Raised 5%Z))
  /\ checks_passed pl w1
  /\ length (listeners (fst (plugin pl 0%Z w1))) = 2.
Proof.
  cbv zeta.
  assert (Hp : checks_passed
                 (createPlugin "a" "1.0.0" []
                    (fun _ : Z => let* _ := on "x" (Plain (fun d => Returned d)) None in
                                  throw (Raised 5%Z)))
                 new_bus)
    by (split; [reflexivity | constructor]).
  split; [exact Hp|].
  destruct (plugin_retry_runs_body_again
              (createPlugin "a" "1.0.0" []
                 (fun _ : Z => let* _ := on "x" (Plain (fun d => Returned d)) None in
                               throw (Raised 5%Z)))
              0%Z new_bus _ _ Hp eq_refl eq_refl) as (E0 & Hp1 & _).
  split; [exact E0|]. split; [exact Hp1 | reflexivity].
Defined.

(** X22. Once a plugin [a] is installed, a plugin [b] not yet installed
    whose only dependency is [a] passes the checks, and has its body
    called, exactly when [compareVersion] of the version it requires
    and the version of [a] is at most 0; otherwise [plugin] throws the
    unmet-version error and changes nothing. *)
Theorem plugin_dependency_on_installed {Data : Type}
    (a b : Plugin Data) (optionsA optionsB : Data) (w w' : World Data)
    (versionNeeded : string) :
  plugin a optionsA w = (w', Returned tt) ->
  dependencies (plugin_descriptor b)
  = [(name (plugin_descriptor a), versionNeeded)] ->
  truthy (plugins_get (name (plugin_descriptor b)) w') = false ->
  ((compareVersion versionNeeded (version (plugin_descriptor a)) <= 0)%Z ->
   checks_passed b w'
   /\ plugin b optionsB w'
      = match plugin_body b optionsB w' with
        | (w2, Returned _) => (recorded b w2, Returned tt)
        | (w2, Threw err) => (w2, Threw err)
        end)
  /\ ((compareVersion versionNeeded (version (plugin_descriptor a)) > 0)%Z ->
      plugin b optionsB w'
      = (w', Threw (UnmetVersion (name (plugin_descriptor a)) versionNeeded
                      (name (plugin_descriptor b))
                      (version (plugin_descriptor a))))).
Proof.
  intros Ha Hdeps Ht.
  assert (Hl : plugins w' !! name (plugin_descriptor a)
               = Some (plugin_descriptor a)).
  { rewrite plugin_unfold in Ha.
    destruct (truthy _); [discriminate|].
    destruct (js_forEach _ _ w) as [w0 [[]|err]]; [|discriminate].
    destruct (plugin_body a optionsA w0) as [w1 [[]|err]]; [|discriminate].
    injection Ha as <-. apply lookup_insert_eq. }
  assert (Hd : dependency (dependencies (plugin_descriptor b))
                 (name (plugin_descriptor a)) = Some versionNeeded).
  { rewrite Hdeps. simpl. rewrite String.eqb_refl. reflexivity. }
  split.
  - intros Hc.
    assert (Hp : checks_passed b w').
    { split; [exact Ht|]. rewrite Hdeps. simpl. constructor; [|constructor].
      exists (plugin_descriptor a), versionNeeded. auto. }
    split; [exact Hp | apply plugin_after_checks, Hp].
  - intros Hc. apply plugin_checks_fail; [exact Ht|].
    rewrite Hdeps. simpl.
    apply (forEach_first_failure b [] _ []); [constructor|].
    apply check_unmet; assumption.
Qed.

Lemma plugin_dependency_on_installed_witness :
  let core := createPlugin "core" "1.10.0" [] (fun _ : Z => ret tt) in
  let ext := createPlugin "ext" "0.1.0" [("core", "1.9")] (fun _ : Z => ret tt) in
  let w' := fst (plugin core 0%Z new_bus) in
  (compareVersion "1.9" "1.10.0" <= 0)%Z
  /\ snd (plugin ext 0%Z w') = Returned tt.
Proof.
  cbv zeta.
  assert (Hc : (compareVersion "1.9" "1.10.0" <= 0)%Z) by (vm_compute; discriminate).
  split; [exact Hc|].
  destruct (plugin_dependency_on_installed
              (createPlugin "core" "1.10.0" [] (fun _ : Z => ret tt))
              (createPlugin "ext" "0.1.0" [("core", "1.9")] (fun _ : Z => ret tt))
              0%Z 0%Z new_bus
              (fst (plugin (createPlugin "core" "1.10.0" [] (fun _ : Z => ret tt))
                      0%Z new_bus))
              "1.9" eq_refl eq_refl eq_refl) as [Hok _].
  destruct (Hok Hc) as [_ E]. rewrite E. reflexivity.
Defined.
